(** * Boring Vault SVM: the Python connectors, their wire format and decoder

    A shallow embedding of [python/boring_vault_svm/connectors.py] and of the
    account schema and test driver of [python/tests/test_sub_accounts.py].

    Python [int] is [Z], [bytes] is [list byte], an exception is the [Err]
    branch of [result].  Calls on the RPC client thread a log of the requests
    made, so that "before any network call" and "without confirming" are
    statements about that log. *)

From Stdlib Require Import ZArith List Bool Lia.
From Stdlib.Strings Require Import Ascii String Byte.
Import ListNotations.
Local Open Scope Z_scope.

(** ** Exceptions and results *)

(** The exceptions the modelled code can raise. *)
Inductive exn : Type :=
| OverflowError                (* int.to_bytes: negative, or too big for the width *)
| FormatFieldError             (* construct: struct.pack refused the value *)
| StreamError                  (* construct: short read, or wrong length written *)
| KeyError                     (* construct: a field is missing from the dict *)
| ValueError                   (* construct: integer2bytes refused the value *)
| NoValidAddress               (* address derivation: every bump is on the curve *)
| SignerError                  (* solders: signers do not match the message *)
| AssertionError               (* a failed [assert] of the tests *)
| TransportError (code : Z).   (* the RPC client raised *)

Inductive result (A : Type) : Type :=
| Ok (a : A)
| Err (e : exn).
Arguments Ok {A} a.
Arguments Err {A} e.

Definition rbind {A B} (r : result A) (k : A -> result B) : result B :=
  match r with
  | Ok a => k a
  | Err e => Err e
  end.

Declare Scope result_scope.
Delimit Scope result_scope with result.
Notation "x <- r ;; k" := (rbind r (fun x => k))
  (at level 61, r at next level, right associativity) : result_scope.

(** ** Bytes and little-endian integers *)

Definition bytes := list byte.

Definition byte_to_Z (b : byte) : Z := Z.of_N (Byte.to_N b).

(** The byte of value [z mod 256]. *)
Definition byte_of_Z (z : Z) : byte :=
  match Byte.of_N (Z.to_N (z mod 256)) with
  | Some b => b
  | None => x00
  end.

(** The [n] low-order base-256 digits of [v], least significant first. *)
Fixpoint le_bytes (n : nat) (v : Z) : bytes :=
  match n with
  | O => []
  | S k => byte_of_Z v :: le_bytes k (v / 256)
  end.

(** [int.from_bytes(bs, 'little')]. *)
Fixpoint le_int (bs : bytes) : Z :=
  match bs with
  | [] => 0
  | b :: rest => byte_to_Z b + 256 * le_int rest
  end.

Definition fits (width : nat) (v : Z) : bool :=
  (0 <=? v) && (v <? 256 ^ Z.of_nat width).

(** [v.to_bytes(length, 'little')]: unsigned, [OverflowError] when [v] is
    negative or does not fit in [length] bytes. *)
Definition int_to_bytes (v : Z) (length : nat) : result bytes :=
  if fits length v then Ok (le_bytes length v) else Err OverflowError.

(** [v.to_bytes(length, 'big')], as construct's [integer2bytes] uses it. *)
Definition int_to_bytes_big (v : Z) (length : nat) : result bytes :=
  if fits length v then Ok (rev (le_bytes length v)) else Err OverflowError.

(** ** borsh_construct / construct: fixed-schema packed structs *)

(** The field codecs the two schemas use.  [U8], [U16], [U32], [U64] are
    construct's [Int8ul] .. [Int64ul], [Bool] is construct's [Flag] and
    [Bytes n] is construct's [Bytes(n)]. *)
Inductive subcon : Type :=
| U8 | U16 | U32 | U64
| Bool
| Bytes (n : nat).

(** Python values a field is built from or parsed to. *)
Inductive value : Type :=
| VInt (z : Z)
| VBool (b : bool)
| VBytes (bs : bytes).

(** Width in bytes of a field on the wire. *)
Definition sizeof (sc : subcon) : nat :=
  match sc with
  | U8 => 1
  | U16 => 2
  | U32 => 4
  | U64 => 8
  | Bool => 1
  | Bytes n => n
  end.

(** A [CStruct] is an ordered list of named fields: ["name" / subcon]. *)
Definition CStruct := list (string * subcon).

(** A Python dict / construct [Container] with string keys, in insertion
    order. *)
Definition Container := list (string * value).

Fixpoint dict_get (d : Container) (k : string) : result value :=
  match d with
  | [] => Err KeyError
  | (k', v) :: rest => if String.eqb k k' then Ok v else dict_get rest k
  end.

(** [struct.pack('<B' | '<H' | '<I' | '<Q', obj)] inside [FormatField._build]:
    any failure of [struct.pack] is re-raised as [FormatFieldError].  A Python
    [bool] is an [int]; [bytes] is not. *)
Definition build_int (width : nat) (obj : value) : result bytes :=
  match obj with
  | VInt z => if fits width z then Ok (le_bytes width z) else Err FormatFieldError
  | VBool b => Ok (le_bytes width (if b then 1 else 0))
  | VBytes _ => Err FormatFieldError
  end.

(** Python truthiness, as [Flag._build] tests it. *)
Definition truthy (obj : value) : bool :=
  match obj with
  | VInt z => negb (z =? 0)
  | VBool b => b
  | VBytes bs => negb (Nat.eqb (List.length bs) 0)
  end.

(** [Bytes(n)._build]: an [int] goes through [integer2bytes] (big-endian,
    [ValueError] when it does not fit); the data written must have exactly
    [n] bytes. *)
Definition build_bytes (n : nat) (obj : value) : result bytes :=
  match obj with
  | VBytes bs => if Nat.eqb (List.length bs) n then Ok bs else Err StreamError
  | VInt z =>
      match int_to_bytes_big z n with Ok bs => Ok bs | Err _ => Err ValueError end
  | VBool b =>
      match int_to_bytes_big (if b then 1 else 0) n with
      | Ok bs => Ok bs
      | Err _ => Err ValueError
      end
  end.

Definition build_subcon (sc : subcon) (obj : value) : result bytes :=
  match sc with
  | U8 => build_int 1 obj
  | U16 => build_int 2 obj
  | U32 => build_int 4 obj
  | U64 => build_int 8 obj
  | Bool => Ok [if truthy obj then x01 else x00]
  | Bytes n => build_bytes n obj
  end.

(** [Struct.build(obj)]: the fields in schema order, each looked up by name in
    [obj] and written after the previous one. *)
Fixpoint build (s : CStruct) (obj : Container) : result bytes :=
  match s with
  | [] => Ok []
  | (name, sc) :: rest =>
      (subobj <- dict_get obj name ;;
       data <- build_subcon sc subobj ;;
       tail <- build rest obj ;;
       Ok (data ++ tail))%result
  end.

(** [stream_read(stream, length)]: the next [length] bytes and the rest of the
    stream, [StreamError] when fewer remain. *)
Definition stream_read (stream : bytes) (length : nat) : result (bytes * bytes) :=
  if Nat.leb length (List.length stream)
  then Ok (firstn length stream, skipn length stream)
  else Err StreamError.

Fixpoint bytes_eqb (a b : bytes) : bool :=
  match a, b with
  | [], [] => true
  | x :: a', y :: b' => Byte.eqb x y && bytes_eqb a' b'
  | _, _ => false
  end.

(** The value of a field from its bytes: the integers are little-endian and
    unsigned, [Flag._parse] is [data != b"\x00"], [Bytes(n)] is the raw
    data. *)
Definition parse_value (sc : subcon) (data : bytes) : value :=
  match sc with
  | U8 | U16 | U32 | U64 => VInt (le_int data)
  | Bool => VBool (negb (bytes_eqb data [x00]))
  | Bytes _ => VBytes data
  end.

(** A field read off the stream, and the stream after it. *)
Definition parse_subcon (sc : subcon) (stream : bytes) : result (value * bytes) :=
  (r <- stream_read stream (sizeof sc) ;;
   let '(data, rest) := r in
   Ok (parse_value sc data, rest))%result.

(** [Struct._parse] on a stream: the fields in schema order, and the unread
    rest of the stream. *)
Fixpoint parse_stream (s : CStruct) (stream : bytes) : result (Container * bytes) :=
  match s with
  | [] => Ok ([], stream)
  | (name, sc) :: rest =>
      (r <- parse_subcon sc stream ;;
       let '(v, stream') := r in
       r' <- parse_stream rest stream' ;;
       let '(obj, stream'') := r' in
       Ok ((name, v) :: obj, stream''))%result
  end.

(** [Struct.parse(data)]: parses from a stream over [data]; what the stream
    still holds after the last field is not looked at. *)
Definition parse (s : CStruct) (data : bytes) : result Container :=
  (r <- parse_stream s data ;; Ok (fst r))%result.

(** ** solders: keys, instructions, messages, transactions *)

Definition Pubkey := bytes.
Definition Hash := bytes.
Definition Signature := bytes.

(** A [Keypair]: its secret and the public key [authority.pubkey()] returns. *)
Record Keypair : Type := {
  secret : bytes;
  Keypair_pubkey : Pubkey
}.

Record AccountMeta : Type := {
  pubkey : Pubkey;
  is_signer : bool;
  is_writable : bool
}.

Record Instruction : Type := {
  program_id : Pubkey;
  data : bytes;
  accounts : list AccountMeta
}.

(** A compiled message, kept as the arguments [MessageV0.try_compile] was
    given: the account table and the indices it compiles them to are a
    re-encoding of these. *)
Record MessageV0 : Type := {
  payer : Pubkey;
  instructions : list Instruction;
  address_lookup_table_accounts : list Pubkey;
  recent_blockhash : Hash
}.

Record VersionedTransaction : Type := {
  message : MessageV0;
  signers : list Keypair
}.

Fixpoint mem_pubkey (k : Pubkey) (ks : list Pubkey) : bool :=
  match ks with
  | [] => false
  | k' :: rest => bytes_eqb k k' || mem_pubkey k rest
  end.

Fixpoint dedup (ks : list Pubkey) (seen : list Pubkey) : list Pubkey :=
  match ks with
  | [] => []
  | k :: rest =>
      if mem_pubkey k seen then dedup rest seen else k :: dedup rest (k :: seen)
  end.

(** The keys a message needs a signature of: the payer, then every account
    marked [is_signer] in an instruction, each once. *)
Definition required_signers (m : MessageV0) : list Pubkey :=
  dedup (payer m :: map pubkey (filter is_signer (flat_map accounts (instructions m)))) [].

(** [VersionedTransaction(message, keypairs)]: as many keypairs as required
    signers, and each required signer among them; [SignerError] otherwise. *)
Definition VersionedTransaction_new (m : MessageV0) (keypairs : list Keypair)
  : result VersionedTransaction :=
  let signer_keys := map Keypair_pubkey keypairs in
  let expected := required_signers m in
  if Nat.eqb (List.length signer_keys) (List.length expected)
     && forallb (fun k => mem_pubkey k signer_keys) expected
  then Ok {| message := m; signers := keypairs |}
  else Err SignerError.

(** ** solana.rpc.api: the client and the log of its requests *)

Inductive request : Type :=
| GetLatestBlockhash
| SendTransaction (tx : VersionedTransaction)
| ConfirmTransaction (sig : Signature)
| GetAccountInfo (address : Pubkey).

(** A client answers each request from the requests made so far: the value of
    the response, or the exception it raises. *)
Record Client : Type := {
  latest_blockhash_resp : list request -> result Hash;
  send_transaction_resp : list request -> VersionedTransaction -> result Signature;
  confirm_transaction_resp : list request -> Signature -> result bool;
  account_info_resp : list request -> Pubkey -> result (option bytes)
}.

(** Code that talks to the client: from the log so far to a result, or the
    exception raised, and the log after. *)
Definition RPC (A : Type) : Type := list request -> result A * list request.

Definition ret {A} (a : A) : RPC A := fun log => (Ok a, log).

Definition bind {A B} (m : RPC A) (k : A -> RPC B) : RPC B :=
  fun log =>
    match m log with
    | (Ok a, log') => k a log'
    | (Err e, log') => (Err e, log')
    end.

(** Code that makes no request. *)
Definition pure {A} (r : result A) : RPC A := fun log => (r, log).

Declare Scope rpc_scope.
Delimit Scope rpc_scope with rpc.
Notation "x <- m ;; k" := (bind m (fun x => k))
  (at level 61, m at next level, right associativity) : rpc_scope.
Notation "' pat <- m ;; k" := (bind m (fun x => match x with pat => k end))
  (at level 61, pat pattern, m at next level, right associativity) : rpc_scope.

(** The four client calls of the code.  Each is one request, logged whether
    it is answered or raises; [send_transaction] is called without options,
    so the client does not confirm what it sent. *)
Definition get_latest_blockhash (client : Client) : RPC Hash :=
  fun log => (latest_blockhash_resp client log, log ++ [GetLatestBlockhash]).

Definition send_transaction (client : Client) (tx : VersionedTransaction) : RPC Signature :=
  fun log => (send_transaction_resp client log tx, log ++ [SendTransaction tx]).

Definition confirm_transaction (client : Client) (sig : Signature) : RPC bool :=
  fun log => (confirm_transaction_resp client log sig, log ++ [ConfirmTransaction sig]).

Definition get_account_info (client : Client) (address : Pubkey) : RPC (option bytes) :=
  fun log => (account_info_resp client log address, log ++ [GetAccountInfo address]).

(** [MessageV0.try_compile(payer, instructions, address_lookup_table_accounts,
    recent_blockhash)]; the one instruction of a connector, with its three
    keys, always compiles. *)
Definition try_compile (payer : Pubkey) (instructions : list Instruction)
    (address_lookup_table_accounts : list Pubkey) (recent_blockhash : Hash)
  : result MessageV0 :=
  Ok {| payer := payer;
        instructions := instructions;
        address_lookup_table_accounts := address_lookup_table_accounts;
        recent_blockhash := recent_blockhash |}.

(** Lines 71-84 of [set_deposit_sub_account], the same as lines 117-130 of
    [set_withdraw_sub_account]: fetch a blockhash, compile, sign, send, and
    return the value of the response. *)
Definition submit (client : Client) (authority : Keypair) (instruction : Instruction)
  : RPC Signature :=
  (recent_blockhash <- get_latest_blockhash client ;;
   message <- pure (try_compile (Keypair_pubkey authority) [instruction] [] recent_blockhash) ;;
   transaction <- pure (VersionedTransaction_new message [authority]) ;;
   result <- send_transaction client transaction ;;
   ret result)%rpc.

(** The transaction the connectors sign: one instruction, paid and signed by
    the authority. *)
Definition transaction_of (authority : Keypair) (instruction : Instruction)
    (recent_blockhash : Hash) : VersionedTransaction :=
  {| message := {| payer := Keypair_pubkey authority;
                   instructions := [instruction];
                   address_lookup_table_accounts := [];
                   recent_blockhash := recent_blockhash |};
     signers := [authority] |}.

(** An instruction with the two account references of the connectors. *)
Definition two_accounts (authority : Keypair) (instruction : Instruction) : Prop :=
  exists vault_state_pda,
    accounts instruction =
    [ {| pubkey := Keypair_pubkey authority; is_signer := true; is_writable := false |};
      {| pubkey := vault_state_pda; is_signer := false; is_writable := true |} ].

(** ** A sample hash, curve, client and keys, to run the code on *)

Definition sample_hash (bs : bytes) : bytes :=
  le_bytes 32 (fold_right (fun b acc => byte_to_Z b + 3 * acc) 7 bs).

Definition sample_on_curve (address : bytes) : bool :=
  match address with
  | b :: _ => negb (byte_to_Z b mod 4 =? 1)
  | [] => true
  end.

Definition sample_program_id : Pubkey := repeat x2a 32.

Definition sample_authority : Keypair :=
  {| secret := repeat x07 32; Keypair_pubkey := repeat x11 32 |}.

(** A client that answers every request; its account data is an 8-byte tag
    and a zeroed body with [config_deposit_sub_account] set to 5. *)
Definition sample_client : Client :=
  {| latest_blockhash_resp := fun log => Ok (repeat xbb 32);
     send_transaction_resp := fun log tx => Ok (le_bytes 64 (Z.of_nat (List.length log)));
     confirm_transaction_resp := fun log sig => Ok true;
     account_info_resp := fun log address =>
       Ok (Some (repeat xff 8 ++ repeat x00 105 ++ [x05] ++ repeat x00 214)) |}.

(** A client whose every request raises. *)
Definition dead_client : Client :=
  {| latest_blockhash_resp := fun log => Err (TransportError 1);
     send_transaction_resp := fun log tx => Err (TransportError 2);
     confirm_transaction_resp := fun log sig => Err (TransportError 3);
     account_info_resp := fun log address => Err (TransportError 4) |}.

(** ** python/boring_vault_svm/connectors.py *)

Definition SET_DEPOSIT_SUB_ACCOUNT_DISCRIMINATOR : bytes :=
  map byte_of_Z [135; 238; 218; 4; 120; 77; 207; 156].

Definition SET_WITHDRAW_SUB_ACCOUNT_DISCRIMINATOR : bytes :=
  map byte_of_Z [152; 197; 103; 249; 56; 180; 0; 172].

Definition args_struct : CStruct :=
  [ ("vault_id", U64);
    ("new_sub_account", U8) ]%string.

Definition BASE_SEED_BORING_VAULT_STATE : bytes :=
  list_byte_of_string "boring-vault-state".

(** [args_struct.build({'vault_id': vault_id, 'new_sub_account':
    new_sub_account})], the [encoded_args] of both connectors. *)
Definition encoded_args (vault_id new_sub_account : Z) : result bytes :=
  build args_struct
    [ ("vault_id", VInt vault_id);
      ("new_sub_account", VInt new_sub_account) ]%string.

(** The [instruction_data] of [set_deposit_sub_account]. *)
Definition set_deposit_sub_account_data (vault_id new_sub_account : Z) : result bytes :=
  (encoded_args <- encoded_args vault_id new_sub_account ;;
   Ok (SET_DEPOSIT_SUB_ACCOUNT_DISCRIMINATOR ++ encoded_args))%result.

(** The [instruction_data] of [set_withdraw_sub_account]. *)
Definition set_withdraw_sub_account_data (vault_id new_sub_account : Z) : result bytes :=
  (encoded_args <- encoded_args vault_id new_sub_account ;;
   Ok (SET_WITHDRAW_SUB_ACCOUNT_DISCRIMINATOR ++ encoded_args))%result.

(** ** python/tests/test_sub_accounts.py: the account schema *)

Definition boring_vault_flat_struct : CStruct :=
  [ ("config_vault_id", U64);
    ("config_authority", Bytes 32);
    ("config_pending_authority", Bytes 32);
    ("config_paused", Bool);
    ("config_share_mint", Bytes 32);
    ("config_deposit_sub_account", U8);
    ("config_withdraw_sub_account", U8);
    ("teller_base_asset", Bytes 32);
    ("teller_decimals", U8);
    ("teller_exchange_rate_provider", Bytes 32);
    ("teller_exchange_rate", U64);
    ("teller_exchange_rate_high_water_mark", U64);
    ("teller_fees_owed_in_base_asset", U64);
    ("teller_total_shares_last_update", U64);
    ("teller_last_update_timestamp", U64);
    ("teller_payout_address", Bytes 32);
    ("teller_allowed_exchange_rate_change_upper_bound", U16);
    ("teller_allowed_exchange_rate_change_lower_bound", U16);
    ("teller_minimum_update_delay_in_seconds", U32);
    ("teller_platform_fee_bps", U16);
    ("teller_performance_fee_bps", U16);
    ("teller_withdraw_authority", Bytes 32);
    ("manager_strategist", Bytes 32) ]%string.

(** The number of bytes a schema reads: the sum of its field widths. *)
Definition struct_size (s : CStruct) : nat :=
  fold_right (fun f acc => (sizeof (snd f) + acc)%nat) O s.

(** [==] on the values a field parses to. *)
Definition value_eqb (a b : value) : bool :=
  match a, b with
  | VInt x, VInt y => x =? y
  | VBool x, VBool y => Bool.eqb x y
  | VInt x, VBool y => x =? (if y then 1 else 0)
  | VBool x, VInt y => (if x then 1 else 0) =? y
  | VBytes x, VBytes y => bytes_eqb x y
  | _, _ => false
  end.

(** [assert cond]. *)
Definition assert (cond : bool) : RPC unit :=
  pure (if cond then Ok tt else Err AssertionError).

Section Derivation.

(** The hash of the derivation and the test for a point of the key curve. *)
Variable hash : bytes -> bytes.
Variable on_curve : bytes -> bool.

(** Modelled from the spec: [Pubkey.find_program_address] is the solders
    library's, not the repository's.  The candidate for a bump is the hash of
    the seeds, the bump as one byte and the program id, concatenated. *)
Definition candidate (seeds : list bytes) (program_id : Pubkey) (bump : Z) : Pubkey :=
  hash (List.concat seeds ++ [byte_of_Z bump] ++ program_id).

(** Modelled from the spec: the bumps are tried from 255 down to 0 and the
    first candidate off the curve is returned with its bump; the search fails
    when all 256 are on the curve.  [bump_search n] tries the bumps [n-1],
    .., 0. *)
Fixpoint bump_search (seeds : list bytes) (program_id : Pubkey) (n : nat)
  : result (Pubkey * Z) :=
  match n with
  | O => Err NoValidAddress
  | S bump =>
      let address := candidate seeds program_id (Z.of_nat bump) in
      if on_curve address
      then bump_search seeds program_id bump
      else Ok (address, Z.of_nat bump)
  end.

Definition find_program_address (seeds : list bytes) (program_id : Pubkey)
  : result (Pubkey * Z) :=
  bump_search seeds program_id 256.

(** Modelled from the spec: [derive(program_id, namespace_seed, identifier)],
    the derivation both connectors and the tests spell out as
    [Pubkey.find_program_address([seed, identifier.to_bytes(8, 'little')],
    program_id)]. *)
Definition derive (program_id : Pubkey) (namespace_seed : bytes) (identifier : Z)
  : result (Pubkey * Z) :=
  (identifier_bytes <- int_to_bytes identifier 8 ;;
   find_program_address [namespace_seed; identifier_bytes] program_id)%result.

(** What the spec asks of a derivation result: the address is the candidate
    of its bump, it is off the curve, and every greater bump up to 255 gives
    a candidate on the curve; a failure means no bump in 0..255 works. *)
Definition canonical (seeds : list bytes) (program_id : Pubkey)
    (r : result (Pubkey * Z)) : Prop :=
  match r with
  | Ok (address, bump) =>
      0 <= bump <= 255
      /\ address = candidate seeds program_id bump
      /\ on_curve address = false
      /\ forall b, bump < b <= 255 -> on_curve (candidate seeds program_id b) = true
  | Err e =>
      e = NoValidAddress
      /\ forall b, 0 <= b <= 255 -> on_curve (candidate seeds program_id b) = true
  end.

(** Lines 49-69 of [set_deposit_sub_account]: the instruction, built before
    the client is used. *)
Definition set_deposit_sub_account_instruction
    (program_id : Pubkey) (vault_id new_sub_account : Z) (authority : Keypair)
  : result Instruction :=
  (vault_id_bytes <- int_to_bytes vault_id 8 ;;
   pda <- find_program_address [BASE_SEED_BORING_VAULT_STATE; vault_id_bytes] program_id ;;
   let '(vault_state_pda, _) := pda in
   instruction_data <- set_deposit_sub_account_data vault_id new_sub_account ;;
   let accounts :=
     [ {| pubkey := Keypair_pubkey authority; is_signer := true; is_writable := false |};
       {| pubkey := vault_state_pda; is_signer := false; is_writable := true |} ] in
   Ok {| program_id := program_id;
         data := instruction_data;
         accounts := accounts |})%result.

(** Lines 95-115 of [set_withdraw_sub_account]. *)
Definition set_withdraw_sub_account_instruction
    (program_id : Pubkey) (vault_id new_sub_account : Z) (authority : Keypair)
  : result Instruction :=
  (vault_id_bytes <- int_to_bytes vault_id 8 ;;
   pda <- find_program_address [BASE_SEED_BORING_VAULT_STATE; vault_id_bytes] program_id ;;
   let '(vault_state_pda, _) := pda in
   instruction_data <- set_withdraw_sub_account_data vault_id new_sub_account ;;
   let accounts :=
     [ {| pubkey := Keypair_pubkey authority; is_signer := true; is_writable := false |};
       {| pubkey := vault_state_pda; is_signer := false; is_writable := true |} ] in
   Ok {| program_id := program_id;
         data := instruction_data;
         accounts := accounts |})%result.

(** Constructs and sends the set_deposit_sub_account transaction. *)
Definition set_deposit_sub_account
    (client : Client) (program_id : Pubkey) (vault_id new_sub_account : Z)
    (authority : Keypair) : RPC Signature :=
  (instruction <-
     pure (set_deposit_sub_account_instruction program_id vault_id new_sub_account authority) ;;
   recent_blockhash <- get_latest_blockhash client ;;
   message <- pure (try_compile (Keypair_pubkey authority) [instruction] [] recent_blockhash) ;;
   transaction <- pure (VersionedTransaction_new message [authority]) ;;
   result <- send_transaction client transaction ;;
   ret result)%rpc.

(** Constructs and sends the set_withdraw_sub_account transaction. *)
Definition set_withdraw_sub_account
    (client : Client) (program_id : Pubkey) (vault_id new_sub_account : Z)
    (authority : Keypair) : RPC Signature :=
  (instruction <-
     pure (set_withdraw_sub_account_instruction program_id vault_id new_sub_account authority) ;;
   recent_blockhash <- get_latest_blockhash client ;;
   message <- pure (try_compile (Keypair_pubkey authority) [instruction] [] recent_blockhash) ;;
   transaction <- pure (VersionedTransaction_new message [authority]) ;;
   result <- send_transaction client transaction ;;
   ret result)%rpc.

(** ** python/tests/test_sub_accounts.py: the two tests *)

(** Tests setting the deposit sub account. *)
Definition test_set_deposit_sub_account
    (rpc_client : Client) (program_id : Pubkey) (authority_keypair : Keypair)
    (deployed_vault_id : Z) : RPC unit :=
  (let new_deposit_sub := 5 in
   tx_sig <- set_deposit_sub_account rpc_client program_id deployed_vault_id
               new_deposit_sub authority_keypair ;;
   _ <- confirm_transaction rpc_client tx_sig ;;
   vault_id_bytes <- pure (int_to_bytes deployed_vault_id 8) ;;
   '(vault_state_pda, _) <-
     pure (find_program_address [BASE_SEED_BORING_VAULT_STATE; vault_id_bytes] program_id) ;;
   account_info <- get_account_info rpc_client vault_state_pda ;;
   match account_info with
   | None => assert false
   | Some account =>
       let account_data := skipn 8 account in
       decoded_data <- pure (parse boring_vault_flat_struct account_data) ;;
       field <- pure (dict_get decoded_data "config_deposit_sub_account") ;;
       assert (value_eqb field (VInt new_deposit_sub))
   end)%rpc.

(** Tests setting the withdraw sub account. *)
Definition test_set_withdraw_sub_account
    (rpc_client : Client) (program_id : Pubkey) (authority_keypair : Keypair)
    (deployed_vault_id : Z) : RPC unit :=
  (let new_withdraw_sub := 10 in
   tx_sig <- set_withdraw_sub_account rpc_client program_id deployed_vault_id
               new_withdraw_sub authority_keypair ;;
   _ <- confirm_transaction rpc_client tx_sig ;;
   vault_id_bytes <- pure (int_to_bytes deployed_vault_id 8) ;;
   '(vault_state_pda, _) <-
     pure (find_program_address [BASE_SEED_BORING_VAULT_STATE; vault_id_bytes] program_id) ;;
   account_info <- get_account_info rpc_client vault_state_pda ;;
   match account_info with
   | None => assert false
   | Some account =>
       let account_data := skipn 8 account in
       decoded_data <- pure (parse boring_vault_flat_struct account_data) ;;
       field <- pure (dict_get decoded_data "config_withdraw_sub_account") ;;
       assert (value_eqb field (VInt new_withdraw_sub))
   end)%rpc.

(** [f] on a success, the exception unchanged. *)
Definition rmap {A B} (f : A -> B) (r : result A) : result B :=
  match r with
  | Ok a => Ok (f a)
  | Err e => Err e
  end.

(** ** tools/query_vault.py *)

(** A Python [str] whose characters the code looks at. *)
Definition str := list Ascii.ascii.

Fixpoint startswith (s prefix : str) : bool :=
  match prefix, s with
  | [], _ => true
  | p :: prefix', c :: s' => Ascii.eqb p c && startswith s' prefix'
  | _ :: _, [] => false
  end.

(** [s.endswith(suffix)]. *)
Definition endswith (s suffix : str) : bool :=
  startswith (rev s) (rev suffix).

(** [sub in s]: [sub] occurs in [s] as a substring. *)
Fixpoint contains (s sub : str) : bool :=
  startswith s sub
  || match s with
     | [] => false
     | _ :: s' => contains s' sub
     end.

Fixpoint lstrip (c : Ascii.ascii) (s : str) : str :=
  match s with
  | [] => []
  | c' :: s' => if Ascii.eqb c' c then lstrip c s' else s
  end.

(** [s.rstrip(c)] for a one-character [c]: every trailing [c] removed. *)
Definition rstrip (c : Ascii.ascii) (s : str) : str :=
  rev (lstrip c (rev s)).

(** Lines 82-84 of [main]: the API key is appended to an Alchemy URL that
    does not end with it; [key] is [os.getenv("ALCHEMY_API_KEY", "")]. *)
Definition rpc_url_with_key (rpc_url key : str) : str :=
  if contains rpc_url (list_ascii_of_string "alchemy.com") && negb (endswith rpc_url key)
  then rstrip "/"%char rpc_url ++ list_ascii_of_string "/" ++ key
  else rpc_url.

(** Line 59 of [get_vault_info]:
    [int.from_bytes(account_data[8:16], byteorder='little')].  A slice past
    the end of the data is shorter or empty, and [int.from_bytes] of no bytes
    is 0. *)
Definition account_vault_id (account_data : bytes) : Z :=
  le_int (firstn 8 (skipn 8 account_data)).

(** The dict [{"pubkey": .., "vault_id": ..}] appended for an account. *)
Record Vault : Type := {
  Vault_pubkey : string;
  Vault_vault_id : Z
}.

(** An element of [data["result"]], as far as the loop looks into it:
    [account["pubkey"]], and [base64.b64decode(account["account"]["data"][0])];
    [None] where the lookup or the decoding raises. *)
Record account_entry : Type := {
  entry_pubkey : option string;
  entry_data : option bytes
}.

(** What [requests.post(..)], [raise_for_status()] and [response.json()]
    leave: an exception, a body without a ["result"] (or with a null one), or
    the list under ["result"]. *)
Inductive rpc_response : Type :=
| RequestFailed
| NoResult
| Result (accounts : list account_entry).

(** Lines 52-65, the loop over [data["result"]] started with [vaults]: an
    account whose data decodes is appended; one whose data does not decode is
    reported and skipped; the report itself reads [account['pubkey']], so
    where that raises the exception leaves the loop ([None]), as it does when
    the append reads it. *)
Fixpoint collect_vaults (accounts : list account_entry) (vaults : list Vault)
  : option (list Vault) :=
  match accounts with
  | [] => Some vaults
  | account :: rest =>
      match entry_pubkey account with
      | None => None
      | Some pk =>
          match entry_data account with
          | Some account_data =>
              collect_vaults rest
                (vaults ++ [{| Vault_pubkey := pk;
                               Vault_vault_id := account_vault_id account_data |}])
          | None => collect_vaults rest vaults
          end
      end
  end.

(** [get_vault_info(program_id, rpc_url)]: [ValueError] when the API key is
    unset or empty; otherwise the vaults collected, and the empty list for
    every exception raised inside the outer [try].  [post] stands for the
    HTTP exchange. *)
Definition get_vault_info (api_key : option str)
    (post : str -> string -> rpc_response) (program_id : string) (rpc_url : str)
  : result (list Vault) :=
  match api_key with
  | None | Some [] => Err ValueError
  | Some (_ :: _) =>
      match post rpc_url program_id with
      | RequestFailed => Ok []
      | NoResult => Ok []
      | Result accounts =>
          match collect_vaults accounts [] with
          | Some vaults => Ok vaults
          | None => Ok []
          end
      end
  end.

(** [l[start:stop]] for a list and two ints: a negative index counts from the
    end, and both are clamped to the list. *)
Definition py_slice {A} (l : list A) (start stop : Z) : list A :=
  let n := Z.of_nat (List.length l) in
  let clamp i := if i <? 0 then Z.max 0 (i + n) else Z.min i n in
  firstn (Z.to_nat (clamp stop - clamp start)) (skipn (Z.to_nat (clamp start)) l).

(** Lines 90-98 of [main]: the vaults kept for checking.  [vault_id] is
    [args.vault_id] ([None] when the option is not given); [if args.vault_id:]
    is false for [None] and for 0. *)
Definition select_vaults (vault_accounts : list Vault) (vault_id : option Z)
    (limit start_index : Z) : list Vault :=
  let vault_accounts :=
    match vault_id with
    | Some id =>
        if id =? 0 then vault_accounts
        else filter (fun v => Vault_vault_id v =? id) vault_accounts
    | None => vault_accounts
    end in
  let start := Z.min start_index (Z.of_nat (List.length vault_accounts)) in
  let end_ := Z.min (start + limit) (Z.of_nat (List.length vault_accounts)) in
  py_slice vault_accounts start end_.

(** Sample account data, response and vault list for the query tool. *)
Definition sample_account : bytes :=
  repeat xff 8 ++ [x02; x01; x00; x00; x00; x00; x00; x00] ++ repeat x00 97
    ++ [x05] ++ repeat x00 214.

Definition sample_entries : list account_entry :=
  [ {| entry_pubkey := Some "A"%string; entry_data := Some sample_account |};
    {| entry_pubkey := Some "B"%string; entry_data := None |};
    {| entry_pubkey := Some "C"%string; entry_data := Some [x01; x02; x03] |} ].

Definition sample_post (rpc_url : str) (program_id : string) : rpc_response :=
  Result sample_entries.

Definition sample_vaults : list Vault :=
  [ {| Vault_pubkey := "A"; Vault_vault_id := 1 |};
    {| Vault_pubkey := "B"; Vault_vault_id := 2 |};
    {| Vault_pubkey := "C"; Vault_vault_id := 1 |};
    {| Vault_pubkey := "D"; Vault_vault_id := 0 |} ]%string.

(** The requests of a run of either test, in order: a blockhash fetch, the
    send of a transaction signed by the authority, the confirmation, and the
    read of the account the sent instruction writes to.  [reqs] is an initial
    part of these. *)
Definition test_request_sequence (authority : Keypair) (reqs : list request) : Prop :=
  exists ins blockhash sig vault_state_pda rest,
    accounts ins =
      [ {| pubkey := Keypair_pubkey authority; is_signer := true; is_writable := false |};
        {| pubkey := vault_state_pda; is_signer := false; is_writable := true |} ]
    /\ reqs ++ rest =
       [ GetLatestBlockhash;
         SendTransaction (transaction_of authority ins blockhash);
         ConfirmTransaction sig;
         GetAccountInfo vault_state_pda ].

(** * Properties *)

(** ** Bytes and little-endian integers *)

Lemma byte_to_Z_range (b : byte) : 0 <= byte_to_Z b < 256.
Proof.
  unfold byte_to_Z. pose proof (Byte.to_N_bounded b). lia.
Qed.

Lemma byte_to_of_Z (z : Z) : byte_to_Z (byte_of_Z z) = z mod 256.
Proof.
  unfold byte_to_Z, byte_of_Z.
  assert (Hr : 0 <= z mod 256 < 256) by (apply Z.mod_pos_bound; lia).
  destruct (Byte.of_N (Z.to_N (z mod 256))) as [b|] eqn:E.
  - apply Byte.to_of_N in E. rewrite E. apply Z2N.id. lia.
  - apply Byte.of_N_None_iff in E. lia.
Qed.

Lemma byte_to_of_Z_small (z : Z) : 0 <= z < 256 -> byte_to_Z (byte_of_Z z) = z.
Proof.
  intros H. rewrite byte_to_of_Z. apply Z.mod_small. exact H.
Qed.

Lemma length_le_bytes (n : nat) (v : Z) : List.length (le_bytes n v) = n.
Proof.
  revert v. induction n as [|n IH]; intros v; simpl; [reflexivity|].
  now rewrite IH.
Qed.

Lemma le_int_le_bytes (n : nat) (v : Z) :
  le_int (le_bytes n v) = v mod 256 ^ Z.of_nat n.
Proof.
  revert v. induction n as [|n IH]; intros v.
  - simpl. now rewrite Z.mod_1_r.
  - cbn [le_bytes le_int]. rewrite IH, byte_to_of_Z.
    rewrite Nat2Z.inj_succ, Z.pow_succ_r by lia.
    rewrite Z.rem_mul_r by (try apply Z.pow_pos_nonneg; lia).
    reflexivity.
Qed.

Lemma fits_iff (width : nat) (v : Z) :
  fits width v = true <-> 0 <= v < 256 ^ Z.of_nat width.
Proof.
  unfold fits. rewrite andb_true_iff, Z.leb_le, Z.ltb_lt. tauto.
Qed.

Lemma le_int_le_bytes_fits (n : nat) (v : Z) :
  fits n v = true -> le_int (le_bytes n v) = v.
Proof.
  intros H. apply fits_iff in H. rewrite le_int_le_bytes. now apply Z.mod_small.
Qed.

Lemma fits_u64 (v : Z) : 0 <= v < 2 ^ 64 -> fits 8 v = true.
Proof.
  intros H. apply fits_iff. change (256 ^ Z.of_nat 8) with (2 ^ 64). exact H.
Qed.

Lemma fits_u8 (v : Z) : 0 <= v < 256 -> fits 1 v = true.
Proof.
  intros H. apply fits_iff. change (256 ^ Z.of_nat 1) with 256. exact H.
Qed.

Lemma fits_u8_false (v : Z) : ~ (0 <= v < 256) -> fits 1 v = false.
Proof.
  intros H. destruct (fits 1 v) eqn:E; [|reflexivity].
  apply fits_iff in E. change (256 ^ Z.of_nat 1) with 256 in E. contradiction.
Qed.

(** ** The struct codec *)

Lemma stream_read_app (a rest : bytes) :
  stream_read (a ++ rest) (List.length a) = Ok (a, rest).
Proof.
  unfold stream_read.
  rewrite length_app.
  replace (Nat.leb (List.length a) (List.length a + List.length rest)) with true
    by (symmetry; apply Nat.leb_le; lia).
  rewrite firstn_app, skipn_app, Nat.sub_diag, firstn_all, skipn_all.
  simpl. now rewrite app_nil_r.
Qed.

Lemma encoded_args_eq (vault_id new_sub_account : Z) :
  encoded_args vault_id new_sub_account =
  if fits 8 vault_id
  then if fits 1 new_sub_account
       then Ok (le_bytes 8 vault_id ++ [byte_of_Z new_sub_account])
       else Err FormatFieldError
  else Err FormatFieldError.
Proof.
  unfold encoded_args. cbn [build args_struct dict_get rbind build_subcon build_int].
  cbn [String.eqb Ascii.eqb Bool.eqb].
  cbn [rbind build_int].
  destruct (fits 8 vault_id); [|reflexivity].
  destruct (fits 1 new_sub_account); reflexivity.
Qed.

Lemma parse_args_struct (id_bytes : bytes) (b : byte) :
  List.length id_bytes = 8%nat ->
  parse args_struct (id_bytes ++ [b]) =
  Ok [("vault_id", VInt (le_int id_bytes)); ("new_sub_account", VInt (byte_to_Z b))]%string.
Proof.
  intros Hlen. unfold parse, args_struct.
  cbn [parse_stream]. unfold parse_subcon at 1. cbn [sizeof].
  rewrite <- Hlen, stream_read_app. cbn [rbind].
  unfold parse_subcon. cbn [sizeof].
  change 1%nat with (List.length [b]).
  rewrite <- (app_nil_r [b]) at 1. rewrite stream_read_app.
  cbn [rbind fst le_int parse_value]. now rewrite Z.mul_0_r, Z.add_0_r.
Qed.

Lemma parse_stream_short (s : CStruct) (stream : bytes) :
  (List.length stream < struct_size s)%nat ->
  parse_stream s stream = Err StreamError.
Proof.
  revert stream. induction s as [|[name sc] s IH]; intros stream Hlen.
  - simpl in Hlen. lia.
  - cbn [struct_size fold_right snd] in Hlen. fold (struct_size s) in Hlen.
    cbn [parse_stream]. unfold parse_subcon, stream_read.
    destruct (Nat.leb (sizeof sc) (List.length stream)) eqn:E; cbn [rbind]; [|reflexivity].
    apply Nat.leb_le in E.
    rewrite IH; [reflexivity|]. rewrite length_skipn. lia.
Qed.

Lemma parse_stream_exact (s : CStruct) (a : bytes) :
  List.length a = struct_size s ->
  exists obj : Container,
    map fst obj = map fst s
    /\ forall rest, parse_stream s (a ++ rest) = Ok (obj, rest).
Proof.
  revert a. induction s as [|[name sc] s IH]; intros a Hlen.
  - destruct a; [|discriminate]. exists []. split; reflexivity.
  - cbn [struct_size fold_right snd] in Hlen. fold (struct_size s) in Hlen.
    assert (Hsplit : a = firstn (sizeof sc) a ++ skipn (sizeof sc) a)
      by (symmetry; apply firstn_skipn).
    assert (Hl1 : List.length (firstn (sizeof sc) a) = sizeof sc)
      by (rewrite length_firstn; lia).
    assert (Hl2 : List.length (skipn (sizeof sc) a) = struct_size s)
      by (rewrite length_skipn; lia).
    revert Hsplit Hl1 Hl2.
    generalize (firstn (sizeof sc) a) as a1, (skipn (sizeof sc) a) as a2.
    intros a1 a2 -> Hl1 Hl2.
    destruct (IH a2 Hl2) as (obj & Hnames & Hobj).
    exists ((name, parse_value sc a1) :: obj). split.
    + cbn [map fst]. now rewrite Hnames.
    + intros rest. cbn [parse_stream]. unfold parse_subcon.
      rewrite <- app_assoc, <- Hl1, stream_read_app. cbn [rbind].
      now rewrite Hobj.
Qed.

(** [parse] reads exactly [struct_size s] bytes: it fails on anything shorter
    and ignores what follows. *)
Lemma parse_cases (s : CStruct) (data : bytes) :
  match parse s data with
  | Ok obj =>
      (struct_size s <= List.length data)%nat
      /\ parse s (firstn (struct_size s) data) = Ok obj
      /\ map fst obj = map fst s
  | Err e => e = StreamError /\ (List.length data < struct_size s)%nat
  end.
Proof.
  destruct (Nat.lt_ge_cases (List.length data) (struct_size s)) as [Hlt|Hge].
  - unfold parse. rewrite parse_stream_short by exact Hlt. cbn [rbind]. now split.
  - destruct (parse_stream_exact s (firstn (struct_size s) data)) as (obj & Hnames & Hobj).
    { rewrite length_firstn. lia. }
    assert (Hdata : parse s data = Ok obj).
    { unfold parse. rewrite <- (firstn_skipn (struct_size s) data), Hobj. reflexivity. }
    assert (Hfirst : parse s (firstn (struct_size s) data) = Ok obj).
    { unfold parse.
      rewrite <- (app_nil_r (firstn (struct_size s) data)), Hobj. reflexivity. }
    rewrite Hdata. now repeat apply conj.
Qed.

Lemma set_deposit_sub_account_data_eq (vault_id new_sub_account : Z) :
  0 <= vault_id < 2 ^ 64 -> 0 <= new_sub_account < 256 ->
  set_deposit_sub_account_data vault_id new_sub_account =
  Ok (SET_DEPOSIT_SUB_ACCOUNT_DISCRIMINATOR
        ++ le_bytes 8 vault_id ++ [byte_of_Z new_sub_account]).
Proof.
  intros Hv Hn. unfold set_deposit_sub_account_data.
  now rewrite encoded_args_eq, (fits_u64 _ Hv), (fits_u8 _ Hn).
Qed.

Lemma set_withdraw_sub_account_data_eq (vault_id new_sub_account : Z) :
  0 <= vault_id < 2 ^ 64 -> 0 <= new_sub_account < 256 ->
  set_withdraw_sub_account_data vault_id new_sub_account =
  Ok (SET_WITHDRAW_SUB_ACCOUNT_DISCRIMINATOR
        ++ le_bytes 8 vault_id ++ [byte_of_Z new_sub_account]).
Proof.
  intros Hv Hn. unfold set_withdraw_sub_account_data.
  now rewrite encoded_args_eq, (fits_u64 _ Hv), (fits_u8 _ Hn).
Qed.

(** The instruction of either connector, in terms of the derivation and of
    the instruction data. *)
Ltac split_derivation :=
  unfold derive;
  destruct (int_to_bytes _ 8) as [?idb|?e]; cbn [rbind]; [|reflexivity];
  destruct (find_program_address _ _) as [[?pda ?bump]|?e]; cbn [rbind fst]; reflexivity.

Lemma set_deposit_sub_account_instruction_eq program_id vault_id new_sub_account authority :
  set_deposit_sub_account_instruction program_id vault_id new_sub_account authority =
  (pda <- derive program_id BASE_SEED_BORING_VAULT_STATE vault_id ;;
   instruction_data <- set_deposit_sub_account_data vault_id new_sub_account ;;
   Ok {| program_id := program_id;
         data := instruction_data;
         accounts :=
           [ {| pubkey := Keypair_pubkey authority; is_signer := true; is_writable := false |};
             {| pubkey := fst pda; is_signer := false; is_writable := true |} ] |})%result.
Proof.
  unfold set_deposit_sub_account_instruction. split_derivation.
Qed.

Lemma set_withdraw_sub_account_instruction_eq program_id vault_id new_sub_account authority :
  set_withdraw_sub_account_instruction program_id vault_id new_sub_account authority =
  (pda <- derive program_id BASE_SEED_BORING_VAULT_STATE vault_id ;;
   instruction_data <- set_withdraw_sub_account_data vault_id new_sub_account ;;
   Ok {| program_id := program_id;
         data := instruction_data;
         accounts :=
           [ {| pubkey := Keypair_pubkey authority; is_signer := true; is_writable := false |};
             {| pubkey := fst pda; is_signer := false; is_writable := true |} ] |})%result.
Proof.
  unfold set_withdraw_sub_account_instruction. split_derivation.
Qed.

(** ** The derivation *)

Lemma bump_search_canonical (seeds : list bytes) (program_id : Pubkey) (n : nat) :
  match bump_search seeds program_id n with
  | Ok (address, bump) =>
      0 <= bump < Z.of_nat n
      /\ address = candidate seeds program_id bump
      /\ on_curve address = false
      /\ forall b, bump < b < Z.of_nat n -> on_curve (candidate seeds program_id b) = true
  | Err e =>
      e = NoValidAddress
      /\ forall b, 0 <= b < Z.of_nat n -> on_curve (candidate seeds program_id b) = true
  end.
Proof.
  induction n as [|n IH].
  - simpl. split; [reflexivity|]. intros b Hb. lia.
  - cbn [bump_search].
    destruct (on_curve (candidate seeds program_id (Z.of_nat n))) eqn:E.
    + destruct (bump_search seeds program_id n) as [[address bump]|e].
      * destruct IH as (Hb & Ha & Hoff & Hall). repeat apply conj; try assumption; try lia.
        intros b Hbb. destruct (Z.eq_dec b (Z.of_nat n)) as [->|Hne]; [exact E|].
        apply Hall. lia.
      * destruct IH as (He & Hall). split; [exact He|].
        intros b Hbb. destruct (Z.eq_dec b (Z.of_nat n)) as [->|Hne]; [exact E|].
        apply Hall. lia.
    + repeat apply conj; try reflexivity; try lia. exact E.
Qed.

Lemma find_program_address_canonical (seeds : list bytes) (program_id : Pubkey) :
  canonical seeds program_id (find_program_address seeds program_id).
Proof.
  unfold canonical, find_program_address.
  pose proof (bump_search_canonical seeds program_id 256) as H.
  destruct (bump_search seeds program_id 256) as [[address bump]|e].
  - destruct H as (Hb & Ha & Hoff & Hall). repeat apply conj; try assumption; try lia.
    intros b Hbb. apply Hall. lia.
  - destruct H as (He & Hall). split; [exact He|]. intros b Hbb. apply Hall. lia.
Qed.

Lemma canonical_unique (seeds : list bytes) (program_id : Pubkey)
    (r1 r2 : result (Pubkey * Z)) :
  canonical seeds program_id r1 -> canonical seeds program_id r2 -> r1 = r2.
Proof.
  destruct r1 as [[a1 b1]|e1], r2 as [[a2 b2]|e2]; cbn [canonical].
  - intros (Hb1 & Ha1 & Hoff1 & Hall1) (Hb2 & Ha2 & Hoff2 & Hall2).
    assert (b1 = b2).
    { destruct (Z.lt_trichotomy b1 b2) as [Hlt|[Heq|Hgt]]; [|exact Heq|].
      - specialize (Hall1 b2 ltac:(lia)). congruence.
      - specialize (Hall2 b1 ltac:(lia)). congruence. }
    subst. reflexivity.
  - intros (Hb1 & Ha1 & Hoff1 & Hall1) (He2 & Hall2).
    specialize (Hall2 b1 Hb1). congruence.
  - intros (He1 & Hall1) (Hb2 & Ha2 & Hoff2 & Hall2).
    specialize (Hall1 b2 Hb2). congruence.
  - intros (-> & _) (-> & _). reflexivity.
Qed.

Lemma derive_eq (program_id : Pubkey) (namespace_seed : bytes) (identifier : Z) :
  0 <= identifier < 2 ^ 64 ->
  derive program_id namespace_seed identifier
  = find_program_address [namespace_seed; le_bytes 8 identifier] program_id.
Proof.
  intros H. unfold derive, int_to_bytes. now rewrite (fits_u64 _ H).
Qed.

Lemma derive_Ok_fits program_id namespace_seed identifier r :
  derive program_id namespace_seed identifier = Ok r -> fits 8 identifier = true.
Proof.
  unfold derive, int_to_bytes. destruct (fits 8 identifier); [reflexivity|discriminate].
Qed.

Lemma derive_Err program_id namespace_seed identifier e :
  derive program_id namespace_seed identifier = Err e ->
  e = OverflowError \/ e = NoValidAddress.
Proof.
  unfold derive, int_to_bytes. destruct (fits 8 identifier); cbn [rbind].
  - intros H.
    pose proof (find_program_address_canonical
                  [namespace_seed; le_bytes 8 identifier] program_id) as Hc.
    rewrite H in Hc. destruct Hc as (-> & _). now right.
  - intros [= <-]. now left.
Qed.

(** ** Sending *)

Lemma bytes_eqb_refl (a : bytes) : bytes_eqb a a = true.
Proof.
  induction a as [|x a IH]; [reflexivity|].
  cbn [bytes_eqb]. rewrite IH, andb_true_r. now apply Byte.byte_dec_lb.
Qed.

(** The authority is the payer and the one signer of either instruction, so
    signing with it alone goes through. *)
Lemma VersionedTransaction_new_authority authority program_id data vault_state_pda blockhash :
  let instruction :=
    {| program_id := program_id;
       data := data;
       accounts :=
         [ {| pubkey := Keypair_pubkey authority; is_signer := true; is_writable := false |};
           {| pubkey := vault_state_pda; is_signer := false; is_writable := true |} ] |} in
  VersionedTransaction_new
    {| payer := Keypair_pubkey authority;
       instructions := [instruction];
       address_lookup_table_accounts := [];
       recent_blockhash := blockhash |} [authority]
  = Ok (transaction_of authority instruction blockhash).
Proof.
  intros instruction. unfold VersionedTransaction_new, required_signers.
  cbn -[bytes_eqb]. rewrite !bytes_eqb_refl. reflexivity.
Qed.

Lemma submit_run client authority instruction log :
  two_accounts authority instruction ->
  submit client authority instruction log =
  match latest_blockhash_resp client log with
  | Err e => (Err e, log ++ [GetLatestBlockhash])
  | Ok blockhash =>
      let tx := transaction_of authority instruction blockhash in
      (send_transaction_resp client (log ++ [GetLatestBlockhash]) tx,
       log ++ [GetLatestBlockhash; SendTransaction tx])
  end.
Proof.
  intros [pda Hacc]. destruct instruction as [pid d accs]. cbn [accounts] in Hacc. subst accs.
  unfold submit, bind, get_latest_blockhash.
  destruct (latest_blockhash_resp client log) as [blockhash|e]; [|reflexivity].
  unfold pure, try_compile. rewrite VersionedTransaction_new_authority.
  unfold send_transaction, ret. cbn zeta.
  rewrite <- app_assoc. cbn [app].
  destruct (send_transaction_resp client _ _); reflexivity.
Qed.

Lemma set_deposit_sub_account_two_accounts program_id vault_id new_sub_account authority ins :
  set_deposit_sub_account_instruction program_id vault_id new_sub_account authority = Ok ins ->
  two_accounts authority ins.
Proof.
  rewrite set_deposit_sub_account_instruction_eq.
  destruct (derive _ _ _) as [pda|e]; cbn [rbind]; [|discriminate].
  destruct (set_deposit_sub_account_data _ _) as [d|e]; cbn [rbind]; [|discriminate].
  intros [= <-]. now exists (fst pda).
Qed.

Lemma set_withdraw_sub_account_two_accounts program_id vault_id new_sub_account authority ins :
  set_withdraw_sub_account_instruction program_id vault_id new_sub_account authority = Ok ins ->
  two_accounts authority ins.
Proof.
  rewrite set_withdraw_sub_account_instruction_eq.
  destruct (derive _ _ _) as [pda|e]; cbn [rbind]; [|discriminate].
  destruct (set_withdraw_sub_account_data _ _) as [d|e]; cbn [rbind]; [|discriminate].
  intros [= <-]. now exists (fst pda).
Qed.

(** A connector is its instruction, then [submit]. *)
Lemma set_deposit_sub_account_run client program_id vault_id new_sub_account authority log :
  set_deposit_sub_account client program_id vault_id new_sub_account authority log =
  match set_deposit_sub_account_instruction program_id vault_id new_sub_account authority with
  | Ok ins => submit client authority ins log
  | Err e => (Err e, log)
  end.
Proof.
  unfold set_deposit_sub_account, bind at 1, pure at 1.
  destruct (set_deposit_sub_account_instruction _ _ _ _); reflexivity.
Qed.

Lemma set_withdraw_sub_account_run client program_id vault_id new_sub_account authority log :
  set_withdraw_sub_account client program_id vault_id new_sub_account authority log =
  match set_withdraw_sub_account_instruction program_id vault_id new_sub_account authority with
  | Ok ins => submit client authority ins log
  | Err e => (Err e, log)
  end.
Proof.
  unfold set_withdraw_sub_account, bind at 1, pure at 1.
  destruct (set_withdraw_sub_account_instruction _ _ _ _); reflexivity.
Qed.

(** What a successful [submit] did: one blockhash request, one send, and the
    value of the send response returned. *)
Lemma submit_Ok client authority ins log sig log' :
  two_accounts authority ins ->
  submit client authority ins log = (Ok sig, log') ->
  exists blockhash,
    latest_blockhash_resp client log = Ok blockhash
    /\ send_transaction_resp client (log ++ [GetLatestBlockhash])
         (transaction_of authority ins blockhash) = Ok sig
    /\ log' = log ++ [GetLatestBlockhash;
                      SendTransaction (transaction_of authority ins blockhash)].
Proof.
  intros Hacc. rewrite (submit_run _ _ _ _ Hacc).
  destruct (latest_blockhash_resp client log) as [blockhash|e]; [|discriminate].
  cbn zeta. intros [= Hsend <-]. now exists blockhash.
Qed.

(** Within the declared widths, once the derivation gives an address and the
    client a blockhash, a connector sends one transaction, whose instruction
    carries the wire format, and returns what the send returned. *)
Lemma set_deposit_sub_account_sends
    client program_id vault_id new_sub_account authority log pda bump blockhash :
  0 <= vault_id < 2 ^ 64 ->
  0 <= new_sub_account < 256 ->
  derive program_id BASE_SEED_BORING_VAULT_STATE vault_id = Ok (pda, bump) ->
  latest_blockhash_resp client log = Ok blockhash ->
  let tx :=
    transaction_of authority
      {| program_id := program_id;
         data := SET_DEPOSIT_SUB_ACCOUNT_DISCRIMINATOR
                   ++ le_bytes 8 vault_id ++ [byte_of_Z new_sub_account];
         accounts :=
           [ {| pubkey := Keypair_pubkey authority; is_signer := true; is_writable := false |};
             {| pubkey := pda; is_signer := false; is_writable := true |} ] |}
      blockhash in
  set_deposit_sub_account client program_id vault_id new_sub_account authority log
  = (send_transaction_resp client (log ++ [GetLatestBlockhash]) tx,
     log ++ [GetLatestBlockhash; SendTransaction tx]).
Proof.
  intros Hv Hn Hpda Hbh tx.
  rewrite set_deposit_sub_account_run, set_deposit_sub_account_instruction_eq, Hpda.
  rewrite set_deposit_sub_account_data_eq by assumption. cbn [rbind fst].
  rewrite submit_run by (eexists; reflexivity).
  now rewrite Hbh.
Qed.

Lemma set_withdraw_sub_account_sends
    client program_id vault_id new_sub_account authority log pda bump blockhash :
  0 <= vault_id < 2 ^ 64 ->
  0 <= new_sub_account < 256 ->
  derive program_id BASE_SEED_BORING_VAULT_STATE vault_id = Ok (pda, bump) ->
  latest_blockhash_resp client log = Ok blockhash ->
  let tx :=
    transaction_of authority
      {| program_id := program_id;
         data := SET_WITHDRAW_SUB_ACCOUNT_DISCRIMINATOR
                   ++ le_bytes 8 vault_id ++ [byte_of_Z new_sub_account];
         accounts :=
           [ {| pubkey := Keypair_pubkey authority; is_signer := true; is_writable := false |};
             {| pubkey := pda; is_signer := false; is_writable := true |} ] |}
      blockhash in
  set_withdraw_sub_account client program_id vault_id new_sub_account authority log
  = (send_transaction_resp client (log ++ [GetLatestBlockhash]) tx,
     log ++ [GetLatestBlockhash; SendTransaction tx]).
Proof.
  intros Hv Hn Hpda Hbh tx.
  rewrite set_withdraw_sub_account_run, set_withdraw_sub_account_instruction_eq, Hpda.
  rewrite set_withdraw_sub_account_data_eq by assumption. cbn [rbind fst].
  rewrite submit_run by (eexists; reflexivity).
  now rewrite Hbh.
Qed.

(** The out-of-range selector stops either instruction from being built. *)
Lemma instruction_rejects_selector program_id vault_id new_sub_account authority :
  ~ (0 <= new_sub_account < 256) ->
  let e := match derive program_id BASE_SEED_BORING_VAULT_STATE vault_id with
           | Ok _ => FormatFieldError
           | Err e' => e'
           end in
  set_deposit_sub_account_instruction program_id vault_id new_sub_account authority = Err e
  /\ set_withdraw_sub_account_instruction program_id vault_id new_sub_account authority = Err e.
Proof.
  intros Hn e. subst e.
  rewrite set_deposit_sub_account_instruction_eq, set_withdraw_sub_account_instruction_eq.
  destruct (derive _ _ _) as [pda|e'] eqn:E; cbn [rbind]; [|now split].
  unfold set_deposit_sub_account_data, set_withdraw_sub_account_data.
  rewrite encoded_args_eq, (derive_Ok_fits _ _ _ _ E), (fits_u8_false _ Hn).
  now split.
Qed.

(** ** The tests *)

(** Steps through a test after its connector returned: every later step
    only appends to the log. *)
Ltac step_pure := unfold bind at 1, pure at 1.

Ltac run_test Hrun :=
  cbn zeta; unfold bind at 1; rewrite Hrun;
  unfold bind at 1, confirm_transaction;
  match goal with
  | |- context [confirm_transaction_resp ?c ?l ?s] =>
      destruct (confirm_transaction_resp c l s) as [?confirmed|?e]
  end; [|eexists; exists []; reflexivity];
  step_pure;
  destruct (int_to_bytes _ 8) as [?idb|?e]; [|eexists; exists []; reflexivity];
  step_pure;
  destruct (find_program_address _ _) as [[?pda ?bump]|?e];
    [|eexists; exists []; reflexivity];
  unfold bind at 1, get_account_info; rewrite <- app_assoc; cbn [app];
  match goal with
  | |- context [account_info_resp ?c ?l ?a] =>
      destruct (account_info_resp c l a) as [[?account|]|?e]
  end; [| unfold assert, pure; eauto | eauto];
  step_pure; destruct (parse _ _) as [?decoded|?e]; [|eauto];
  step_pure; destruct (dict_get _ _) as [?field|?e]; [|eauto];
  unfold assert, pure; eauto.

Lemma test_set_deposit_sub_account_confirms client program_id authority vault_id log sig log' :
  set_deposit_sub_account client program_id vault_id 5 authority log = (Ok sig, log') ->
  exists r rest,
    test_set_deposit_sub_account client program_id authority vault_id log
    = (r, log' ++ ConfirmTransaction sig :: rest).
Proof.
  intros Hrun. unfold test_set_deposit_sub_account. run_test Hrun.
Qed.

Lemma test_set_withdraw_sub_account_confirms client program_id authority vault_id log sig log' :
  set_withdraw_sub_account client program_id vault_id 10 authority log = (Ok sig, log') ->
  exists r rest,
    test_set_withdraw_sub_account client program_id authority vault_id log
    = (r, log' ++ ConfirmTransaction sig :: rest).
Proof.
  intros Hrun. unfold test_set_withdraw_sub_account. run_test Hrun.
Qed.

(** * The claims *)

(** C5: within the declared widths the argument encoder returns exactly nine
    bytes, the identifier as eight little-endian bytes and then the selector
    byte, with nothing before, between or after them. *)
Theorem encoded_args_layout (vault_id new_sub_account : Z) :
  0 <= vault_id < 2 ^ 64 ->
  0 <= new_sub_account < 256 ->
  encoded_args vault_id new_sub_account
    = Ok (le_bytes 8 vault_id ++ [byte_of_Z new_sub_account])
  /\ List.length (le_bytes 8 vault_id ++ [byte_of_Z new_sub_account]) = 9%nat
  /\ List.length (le_bytes 8 vault_id) = 8%nat
  /\ le_int (le_bytes 8 vault_id) = vault_id
  /\ byte_to_Z (byte_of_Z new_sub_account) = new_sub_account.
Proof.
  intros Hv Hn. repeat apply conj.
  - now rewrite encoded_args_eq, (fits_u64 _ Hv), (fits_u8 _ Hn).
  - now rewrite length_app, length_le_bytes.
  - apply length_le_bytes.
  - apply le_int_le_bytes_fits, fits_u64, Hv.
  - apply byte_to_of_Z_small, Hn.
Qed.

(** C3: within the declared widths, parsing what the argument schema built
    gives back the identifier and the selector it was built from. *)
Theorem args_struct_round_trip (vault_id new_sub_account : Z) :
  0 <= vault_id < 2 ^ 64 ->
  0 <= new_sub_account < 256 ->
  exists encoded : bytes,
    encoded_args vault_id new_sub_account = Ok encoded
    /\ List.length encoded = 9%nat
    /\ parse args_struct encoded
       = Ok [("vault_id", VInt vault_id); ("new_sub_account", VInt new_sub_account)]%string.
Proof.
  intros Hv Hn.
  exists (le_bytes 8 vault_id ++ [byte_of_Z new_sub_account]). split; [|split].
  - now rewrite encoded_args_eq, (fits_u64 _ Hv), (fits_u8 _ Hn).
  - now rewrite length_app, length_le_bytes.
  - rewrite parse_args_struct by apply length_le_bytes.
    rewrite le_int_le_bytes_fits by (apply fits_u64, Hv).
    now rewrite byte_to_of_Z_small by exact Hn.
Qed.

(** C1: within the declared widths the instruction data of
    set_deposit_sub_account is its 8-byte discriminator, the identifier as
    eight little-endian bytes and the selector byte, 17 bytes in all; it is
    the data of the instruction whenever the derivation lets one be built;
    for identifier 1 and selector 5 it is the byte string of the scenario. *)
Theorem set_deposit_sub_account_wire_format
    (program_id : Pubkey) (authority : Keypair) (vault_id new_sub_account : Z) :
  0 <= vault_id < 2 ^ 64 ->
  0 <= new_sub_account < 256 ->
  let wire := [x87; xee; xda; x04; x78; x4d; xcf; x9c]
                ++ le_bytes 8 vault_id ++ [byte_of_Z new_sub_account] in
  set_deposit_sub_account_data vault_id new_sub_account = Ok wire
  /\ rmap data
       (set_deposit_sub_account_instruction program_id vault_id new_sub_account authority)
     = rmap (fun _ => wire) (derive program_id BASE_SEED_BORING_VAULT_STATE vault_id)
  /\ List.length wire = 17%nat
  /\ le_int (le_bytes 8 vault_id) = vault_id
  /\ byte_to_Z (byte_of_Z new_sub_account) = new_sub_account
  /\ set_deposit_sub_account_data 1 5
     = Ok [x87; xee; xda; x04; x78; x4d; xcf; x9c;
           x01; x00; x00; x00; x00; x00; x00; x00;
           x05].
Proof.
  intros Hv Hn wire.
  assert (Hdata : set_deposit_sub_account_data vault_id new_sub_account = Ok wire)
    by (now rewrite set_deposit_sub_account_data_eq).
  repeat apply conj.
  - exact Hdata.
  - rewrite set_deposit_sub_account_instruction_eq, Hdata.
    destruct (derive _ _ _) as [pda|e]; reflexivity.
  - unfold wire. now rewrite !length_app, length_le_bytes.
  - apply le_int_le_bytes_fits, fits_u64, Hv.
  - apply byte_to_of_Z_small, Hn.
  - reflexivity.
Qed.

(** C4: for identifier 1 and selector 10 the instruction data of
    set_withdraw_sub_account is the discriminator 98 c5 67 f9 38 b4 00 ac,
    then 1 as eight little-endian bytes, then the byte 0a; it is the data of
    the instruction whenever the derivation lets one be built. *)
Theorem set_withdraw_sub_account_scenario (program_id : Pubkey) (authority : Keypair) :
  set_withdraw_sub_account_data 1 10
    = Ok ([x98; xc5; x67; xf9; x38; xb4; x00; xac]
            ++ [x01; x00; x00; x00; x00; x00; x00; x00]
            ++ [x0a])
  /\ le_int [x01; x00; x00; x00; x00; x00; x00; x00] = 1
  /\ byte_to_Z x0a = 10
  /\ rmap data (set_withdraw_sub_account_instruction program_id 1 10 authority)
     = rmap (fun _ => [x98; xc5; x67; xf9; x38; xb4; x00; xac;
                       x01; x00; x00; x00; x00; x00; x00; x00;
                       x0a])
         (derive program_id BASE_SEED_BORING_VAULT_STATE 1).
Proof.
  repeat apply conj; try reflexivity.
  rewrite set_withdraw_sub_account_instruction_eq.
  destruct (derive _ _ _) as [pda|e]; reflexivity.
Qed.

(** C2, as the code has it: the decoder of the account schema fails, with
    [StreamError], exactly on the buffers shorter than 320 bytes, the sum of
    the field widths, whatever they hold; a buffer of 320 bytes or more is
    decoded from its first 320 bytes into a record with all 23 fields. *)
Theorem boring_vault_flat_struct_parse_length (data : bytes) :
  struct_size boring_vault_flat_struct = 320%nat
  /\ match parse boring_vault_flat_struct data with
     | Ok record =>
         (320 <= List.length data)%nat
         /\ parse boring_vault_flat_struct (firstn 320 data) = Ok record
         /\ map fst record = map fst boring_vault_flat_struct
     | Err e => e = StreamError /\ (List.length data < 320)%nat
     end.
Proof.
  split; [reflexivity|].
  exact (parse_cases boring_vault_flat_struct data).
Qed.

(** C2 as stated fails: buffers of 320 and of 321 zero bytes are not 244
    bytes long and are decoded, and a buffer of 244 bytes is refused. *)
Lemma boring_vault_flat_struct_not_244 :
  (List.length (repeat x00 320) <> 244%nat
   /\ exists record, parse boring_vault_flat_struct (repeat x00 320) = Ok record)
  /\ (List.length (repeat x00 321) <> 244%nat
      /\ exists record, parse boring_vault_flat_struct (repeat x00 321) = Ok record)
  /\ parse boring_vault_flat_struct (repeat x00 244) = Err StreamError.
Proof.
  repeat apply conj.
  - vm_compute. discriminate.
  - eexists. vm_compute. reflexivity.
  - vm_compute. discriminate.
  - eexists. vm_compute. reflexivity.
  - vm_compute. reflexivity.
Qed.

(** C6: an instruction built by either connector has exactly two account
    references, in this order: the authority's key, signer and not writable,
    then the derived vault-state address, not signer and writable. *)
Theorem instruction_accounts
    (program_id : Pubkey) (vault_id new_sub_account : Z) (authority : Keypair)
    (ins : Instruction) :
  set_deposit_sub_account_instruction program_id vault_id new_sub_account authority = Ok ins
  \/ set_withdraw_sub_account_instruction program_id vault_id new_sub_account authority = Ok ins ->
  exists vault_state_pda bump,
    derive program_id BASE_SEED_BORING_VAULT_STATE vault_id = Ok (vault_state_pda, bump)
    /\ accounts ins =
       [ {| pubkey := Keypair_pubkey authority; is_signer := true; is_writable := false |};
         {| pubkey := vault_state_pda; is_signer := false; is_writable := true |} ]
    /\ List.length (accounts ins) = 2%nat.
Proof.
  rewrite set_deposit_sub_account_instruction_eq, set_withdraw_sub_account_instruction_eq.
  destruct (derive _ _ _) as [[pda bump]|e]; cbn [rbind fst].
  - intros [H|H]; exists pda, bump;
      [destruct (set_deposit_sub_account_data _ _) as [d|e]
      |destruct (set_withdraw_sub_account_data _ _) as [d|e]];
      cbn [rbind] in H; try discriminate;
      injection H as <-; repeat apply conj; reflexivity.
  - intros [H|H]; discriminate.
Qed.

(** C7: two runs of the derivation on the same program id, seed and 64-bit
    identifier give the same result; that result is the one the search
    order fixes, and no other result fits that description. *)
Theorem derive_deterministic
    (program_id : Pubkey) (namespace_seed : bytes) (identifier : Z)
    (first second : result (Pubkey * Z)) :
  0 <= identifier < 2 ^ 64 ->
  derive program_id namespace_seed identifier = first ->
  derive program_id namespace_seed identifier = second ->
  first = second
  /\ canonical [namespace_seed; le_bytes 8 identifier] program_id first
  /\ forall r, canonical [namespace_seed; le_bytes 8 identifier] program_id r -> r = first.
Proof.
  intros Hid H1 H2.
  assert (Hc : canonical [namespace_seed; le_bytes 8 identifier] program_id first).
  { rewrite <- H1, derive_eq by exact Hid. apply find_program_address_canonical. }
  repeat apply conj.
  - now rewrite <- H1, <- H2.
  - exact Hc.
  - intros r Hr. exact (canonical_unique _ _ _ _ Hr Hc).
Qed.

(** C8: with a new sub-account value outside 0..255 either connector raises
    and leaves the request log as it was: no blockhash is fetched and nothing
    is sent.  The exception is the encoder's [FormatFieldError] whenever the
    derivation before it succeeded, and otherwise the derivation's own
    ([OverflowError] for an identifier that does not fit eight bytes, or the
    end of the bump search). *)
Theorem out_of_range_sub_account_rejected
    (client : Client) (program_id : Pubkey) (vault_id new_sub_account : Z)
    (authority : Keypair) (log : list request) :
  ~ (0 <= new_sub_account < 256) ->
  exists e,
    set_deposit_sub_account client program_id vault_id new_sub_account authority log
      = (Err e, log)
    /\ set_withdraw_sub_account client program_id vault_id new_sub_account authority log
      = (Err e, log)
    /\ e = match derive program_id BASE_SEED_BORING_VAULT_STATE vault_id with
           | Ok _ => FormatFieldError
           | Err e' => e'
           end
    /\ (e = FormatFieldError \/ e = OverflowError \/ e = NoValidAddress).
Proof.
  intros Hn.
  destruct (instruction_rejects_selector program_id vault_id new_sub_account authority Hn)
    as [Hd Hw].
  eexists. repeat apply conj.
  - rewrite set_deposit_sub_account_run, Hd. reflexivity.
  - rewrite set_withdraw_sub_account_run, Hw. reflexivity.
  - reflexivity.
  - destruct (derive _ _ _) as [pda|e'] eqn:E; [now left|].
    right. exact (derive_Err _ _ _ _ E).
Qed.

(** C9: a connector that returns has made two requests and no more, a
    blockhash fetch and then the send, and what it returns is the value of
    the send response; it asks for no confirmation.  The confirmation is the
    next request of the test that called it, made with the value returned. *)
Theorem submit_returns_without_confirming
    (client : Client) (program_id : Pubkey) (vault_id new_sub_account : Z)
    (authority : Keypair) (log log' : list request) (sig : Signature) :
  set_deposit_sub_account client program_id vault_id new_sub_account authority log
    = (Ok sig, log')
  \/ set_withdraw_sub_account client program_id vault_id new_sub_account authority log
    = (Ok sig, log') ->
  (exists ins blockhash,
     two_accounts authority ins
     /\ latest_blockhash_resp client log = Ok blockhash
     /\ send_transaction_resp client (log ++ [GetLatestBlockhash])
          (transaction_of authority ins blockhash) = Ok sig
     /\ log' = log ++ [GetLatestBlockhash;
                       SendTransaction (transaction_of authority ins blockhash)])
  /\ (forall s, ~ In (ConfirmTransaction s) (skipn (List.length log) log'))
  /\ (set_deposit_sub_account client program_id vault_id 5 authority log = (Ok sig, log') ->
      exists r rest,
        test_set_deposit_sub_account client program_id authority vault_id log
        = (r, log' ++ ConfirmTransaction sig :: rest))
  /\ (set_withdraw_sub_account client program_id vault_id 10 authority log = (Ok sig, log') ->
      exists r rest,
        test_set_withdraw_sub_account client program_id authority vault_id log
        = (r, log' ++ ConfirmTransaction sig :: rest)).
Proof.
  intros Hrun.
  assert (Hsub : exists ins blockhash,
     two_accounts authority ins
     /\ latest_blockhash_resp client log = Ok blockhash
     /\ send_transaction_resp client (log ++ [GetLatestBlockhash])
          (transaction_of authority ins blockhash) = Ok sig
     /\ log' = log ++ [GetLatestBlockhash;
                       SendTransaction (transaction_of authority ins blockhash)]).
  { destruct Hrun as [H|H].
    - rewrite set_deposit_sub_account_run in H.
      destruct (set_deposit_sub_account_instruction _ _ _ _) as [ins|e] eqn:E; [|discriminate].
      pose proof (set_deposit_sub_account_two_accounts _ _ _ _ _ E) as Hacc.
      destruct (submit_Ok _ _ _ _ _ _ Hacc H) as (bh & Hb & Hs & Hl).
      now exists ins, bh.
    - rewrite set_withdraw_sub_account_run in H.
      destruct (set_withdraw_sub_account_instruction _ _ _ _) as [ins|e] eqn:E; [|discriminate].
      pose proof (set_withdraw_sub_account_two_accounts _ _ _ _ _ E) as Hacc.
      destruct (submit_Ok _ _ _ _ _ _ Hacc H) as (bh & Hb & Hs & Hl).
      now exists ins, bh. }
  repeat apply conj.
  - exact Hsub.
  - destruct Hsub as (ins & bh & _ & _ & _ & ->). intros s.
    rewrite skipn_app, skipn_all, Nat.sub_diag. cbn [app skipn].
    intros [H|[H|[]]]; discriminate.
  - apply test_set_deposit_sub_account_confirms.
  - apply test_set_withdraw_sub_account_confirms.
Qed.

(** C10: on the same program id, vault id, new sub-account and authority the
    two connectors build their instructions or fail together; when they
    build, the derived address, the account references and the program are
    the same, and the data is each connector's own 8-byte discriminator
    followed by the same nine argument bytes. *)
Theorem connectors_differ_in_discriminator_only
    (program_id : Pubkey) (vault_id new_sub_account : Z) (authority : Keypair) :
  match set_deposit_sub_account_instruction program_id vault_id new_sub_account authority,
        set_withdraw_sub_account_instruction program_id vault_id new_sub_account authority
  with
  | Ok deposit, Ok withdraw =>
      exists vault_state_pda bump args,
        let refs :=
          [ {| pubkey := Keypair_pubkey authority; is_signer := true; is_writable := false |};
            {| pubkey := vault_state_pda; is_signer := false; is_writable := true |} ] in
        derive program_id BASE_SEED_BORING_VAULT_STATE vault_id = Ok (vault_state_pda, bump)
        /\ encoded_args vault_id new_sub_account = Ok args
        /\ List.length args = 9%nat
        /\ deposit = {| program_id := program_id;
                        data := SET_DEPOSIT_SUB_ACCOUNT_DISCRIMINATOR ++ args;
                        accounts := refs |}
        /\ withdraw = {| program_id := program_id;
                         data := SET_WITHDRAW_SUB_ACCOUNT_DISCRIMINATOR ++ args;
                         accounts := refs |}
        /\ accounts deposit = accounts withdraw
        /\ skipn 8 (data deposit) = skipn 8 (data withdraw)
        /\ skipn 8 (data deposit) = args
        /\ firstn 8 (data deposit) = SET_DEPOSIT_SUB_ACCOUNT_DISCRIMINATOR
        /\ firstn 8 (data withdraw) = SET_WITHDRAW_SUB_ACCOUNT_DISCRIMINATOR
        /\ SET_DEPOSIT_SUB_ACCOUNT_DISCRIMINATOR <> SET_WITHDRAW_SUB_ACCOUNT_DISCRIMINATOR
  | Err e1, Err e2 => e1 = e2
  | _, _ => False
  end.
Proof.
  rewrite set_deposit_sub_account_instruction_eq, set_withdraw_sub_account_instruction_eq.
  destruct (derive _ _ _) as [[pda bump]|e]; cbn [rbind fst]; [|reflexivity].
  unfold set_deposit_sub_account_data, set_withdraw_sub_account_data.
  destruct (encoded_args vault_id new_sub_account) as [args|e] eqn:E; cbn [rbind];
    [|reflexivity].
  exists pda, bump, args. cbn [accounts data].
  assert (Hlen : List.length args = 9%nat).
  { rewrite encoded_args_eq in E.
    destruct (fits 8 vault_id); [|discriminate].
    destruct (fits 1 new_sub_account); [|discriminate].
    injection E as <-. reflexivity. }
  repeat apply conj; try reflexivity; try exact Hlen.
  intros H. vm_compute in H. discriminate.
Qed.

(** * Further properties of the code *)

(** ** Little-endian integers, the other way round *)

Lemma byte_of_to_Z (b : byte) (k : Z) : byte_of_Z (byte_to_Z b + 256 * k) = b.
Proof.
  unfold byte_of_Z.
  pose proof (byte_to_Z_range b) as Hb.
  replace ((byte_to_Z b + 256 * k) mod 256) with (byte_to_Z b).
  - unfold byte_to_Z. now rewrite N2Z.id, Byte.of_to_N.
  - replace (byte_to_Z b + 256 * k) with (byte_to_Z b + k * 256) by lia.
    rewrite Z.mod_add by lia. symmetry. now apply Z.mod_small.
Qed.

Lemma le_int_range (bs : bytes) : 0 <= le_int bs < 256 ^ Z.of_nat (List.length bs).
Proof.
  induction bs as [|b bs IH].
  - simpl. lia.
  - cbn [le_int List.length]. rewrite Nat2Z.inj_succ, Z.pow_succ_r by lia.
    pose proof (byte_to_Z_range b). lia.
Qed.

Lemma le_bytes_le_int (bs : bytes) : le_bytes (List.length bs) (le_int bs) = bs.
Proof.
  induction bs as [|b bs IH]; [reflexivity|].
  cbn [List.length le_bytes le_int]. rewrite byte_of_to_Z. f_equal.
  pose proof (byte_to_Z_range b) as Hb.
  replace ((byte_to_Z b + 256 * le_int bs) / 256) with (le_int bs); [exact IH|].
  replace (byte_to_Z b + 256 * le_int bs) with (byte_to_Z b + le_int bs * 256) by lia.
  rewrite Z.div_add by lia.
  rewrite (Z.div_small (byte_to_Z b)) by lia. lia.
Qed.

Lemma encoded_args_Ok (vault_id new_sub_account : Z) (encoded : bytes) :
  encoded_args vault_id new_sub_account = Ok encoded ->
  0 <= vault_id < 2 ^ 64 /\ 0 <= new_sub_account < 256
  /\ encoded = le_bytes 8 vault_id ++ [byte_of_Z new_sub_account].
Proof.
  rewrite encoded_args_eq.
  destruct (fits 8 vault_id) eqn:Ev; [|discriminate].
  destruct (fits 1 new_sub_account) eqn:En; [|discriminate].
  intros [= <-]. apply fits_iff in Ev, En.
  change (256 ^ Z.of_nat 8) with (2 ^ 64) in Ev.
  change (256 ^ Z.of_nat 1) with 256 in En. now repeat apply conj.
Qed.

Lemma encoded_args_injective v n v' n' encoded :
  encoded_args v n = Ok encoded -> encoded_args v' n' = Ok encoded ->
  v = v' /\ n = n'.
Proof.
  intros H H'.
  apply encoded_args_Ok in H as (Hv & Hn & ->).
  apply encoded_args_Ok in H' as (Hv' & Hn' & Heq).
  assert (Hp : parse args_struct (le_bytes 8 v ++ [byte_of_Z n])
               = parse args_struct (le_bytes 8 v' ++ [byte_of_Z n'])) by now rewrite Heq.
  rewrite !parse_args_struct in Hp by apply length_le_bytes.
  rewrite !le_int_le_bytes_fits in Hp by now apply fits_u64.
  rewrite !byte_to_of_Z_small in Hp by assumption.
  injection Hp as -> ->. now split.
Qed.

(** ** The connectors *)

(** X1: an identifier outside 0 .. 2^64-1 makes either connector raise
    [OverflowError], whatever the new sub-account is, and no request is
    made. *)
Theorem vault_id_out_of_range_rejected
    (client : Client) (program_id : Pubkey) (vault_id new_sub_account : Z)
    (authority : Keypair) (log : list request) :
  ~ (0 <= vault_id < 2 ^ 64) ->
  set_deposit_sub_account client program_id vault_id new_sub_account authority log
    = (Err OverflowError, log)
  /\ set_withdraw_sub_account client program_id vault_id new_sub_account authority log
    = (Err OverflowError, log).
Proof.
  intros Hv.
  assert (Hfits : fits 8 vault_id = false).
  { destruct (fits 8 vault_id) eqn:E; [|reflexivity].
    apply fits_iff in E. change (256 ^ Z.of_nat 8) with (2 ^ 64) in E. contradiction. }
  rewrite set_deposit_sub_account_run, set_withdraw_sub_account_run.
  unfold set_deposit_sub_account_instruction, set_withdraw_sub_account_instruction,
    int_to_bytes.
  rewrite Hfits. now split.
Qed.

(** X2: when the blockhash request raises, either connector raises the same
    exception, having made that one request: nothing is compiled, signed or
    sent, and the request is not repeated. *)
Theorem blockhash_failure_surfaces
    (client : Client) (program_id : Pubkey) (vault_id new_sub_account : Z)
    (authority : Keypair) (log : list request)
    (vault_state_pda : Pubkey) (bump : Z) (e : exn) :
  0 <= vault_id < 2 ^ 64 ->
  0 <= new_sub_account < 256 ->
  derive program_id BASE_SEED_BORING_VAULT_STATE vault_id = Ok (vault_state_pda, bump) ->
  latest_blockhash_resp client log = Err e ->
  set_deposit_sub_account client program_id vault_id new_sub_account authority log
    = (Err e, log ++ [GetLatestBlockhash])
  /\ set_withdraw_sub_account client program_id vault_id new_sub_account authority log
    = (Err e, log ++ [GetLatestBlockhash]).
Proof.
  intros Hv Hn Hpda Hbh.
  rewrite set_deposit_sub_account_run, set_withdraw_sub_account_run.
  rewrite set_deposit_sub_account_instruction_eq, set_withdraw_sub_account_instruction_eq.
  rewrite Hpda, set_deposit_sub_account_data_eq, set_withdraw_sub_account_data_eq
    by assumption.
  cbn [rbind fst].
  rewrite !submit_run by (eexists; reflexivity).
  rewrite Hbh. now split.
Qed.

(** X3: once the instruction is built and a blockhash fetched, either
    connector sends exactly one transaction: its message has the authority as
    payer, the one instruction, no lookup tables and the blockhash just
    fetched; the authority is its only signer; and the call's result is
    whatever the send gave, a value or an exception. *)
Theorem connectors_send_once
    (client : Client) (program_id : Pubkey) (vault_id new_sub_account : Z)
    (authority : Keypair) (log : list request) (blockhash : Hash) (ins : Instruction) :
  latest_blockhash_resp client log = Ok blockhash ->
  let tx := {| message := {| payer := Keypair_pubkey authority;
                             instructions := [ins];
                             address_lookup_table_accounts := [];
                             recent_blockhash := blockhash |};
               signers := [authority] |} in
  (set_deposit_sub_account_instruction program_id vault_id new_sub_account authority = Ok ins ->
   set_deposit_sub_account client program_id vault_id new_sub_account authority log
   = (send_transaction_resp client (log ++ [GetLatestBlockhash]) tx,
      log ++ [GetLatestBlockhash; SendTransaction tx]))
  /\ (set_withdraw_sub_account_instruction program_id vault_id new_sub_account authority = Ok ins ->
      set_withdraw_sub_account client program_id vault_id new_sub_account authority log
      = (send_transaction_resp client (log ++ [GetLatestBlockhash]) tx,
         log ++ [GetLatestBlockhash; SendTransaction tx])).
Proof.
  intros Hbh tx. split; intros Hins.
  - rewrite set_deposit_sub_account_run, Hins.
    rewrite submit_run by (eapply set_deposit_sub_account_two_accounts; eassumption).
    now rewrite Hbh.
  - rewrite set_withdraw_sub_account_run, Hins.
    rewrite submit_run by (eapply set_withdraw_sub_account_two_accounts; eassumption).
    now rewrite Hbh.
Qed.

(** X4: the instruction data names its command and its arguments: data built
    for a deposit is never data built for a withdrawal, and two calls of the
    same connector that build the same data were given the same identifier
    and the same sub-account. *)
Theorem instruction_data_unambiguous
    (vault_id new_sub_account vault_id' new_sub_account' : Z) (deposit withdraw : bytes) :
  set_deposit_sub_account_data vault_id new_sub_account = Ok deposit ->
  set_withdraw_sub_account_data vault_id' new_sub_account' = Ok withdraw ->
  deposit <> withdraw
  /\ (forall v n, set_deposit_sub_account_data v n = Ok deposit ->
                  v = vault_id /\ n = new_sub_account)
  /\ (forall v n, set_withdraw_sub_account_data v n = Ok withdraw ->
                  v = vault_id' /\ n = new_sub_account').
Proof.
  unfold set_deposit_sub_account_data, set_withdraw_sub_account_data.
  destruct (encoded_args vault_id new_sub_account) as [a|?] eqn:Ea; [|discriminate].
  destruct (encoded_args vault_id' new_sub_account') as [a'|?] eqn:Ea'; [|discriminate].
  cbn [rbind]. intros [= <-] [= <-]. repeat apply conj.
  - intros H. vm_compute in H. discriminate H.
  - intros v n. destruct (encoded_args v n) as [b|?] eqn:Eb; [|discriminate].
    cbn [rbind]. intros [= H]. subst b.
    exact (encoded_args_injective _ _ _ _ _ Eb Ea).
  - intros v n. destruct (encoded_args v n) as [b|?] eqn:Eb; [|discriminate].
    cbn [rbind]. intros [= H]. subst b.
    exact (encoded_args_injective _ _ _ _ _ Eb Ea').
Qed.

(** X5: every buffer of nine bytes or more parses under the argument schema,
    to an identifier below 2^64 and a sub-account below 256, and building
    from those two gives the first nine bytes back. *)
Theorem args_struct_parse_then_build (buffer : bytes) :
  (9 <= List.length buffer)%nat ->
  exists vault_id new_sub_account,
    parse args_struct buffer
      = Ok [("vault_id", VInt vault_id); ("new_sub_account", VInt new_sub_account)]%string
    /\ 0 <= vault_id < 2 ^ 64
    /\ 0 <= new_sub_account < 256
    /\ encoded_args vault_id new_sub_account = Ok (firstn 9 buffer).
Proof.
  intros Hlen.
  pose proof (parse_cases args_struct buffer) as Hp.
  change (struct_size args_struct) with 9%nat in Hp.
  destruct (parse args_struct buffer) as [obj|e]; [|lia].
  destruct Hp as (_ & Hfirst & _).
  assert (Hshape : exists id_bytes b,
             firstn 9 buffer = id_bytes ++ [b] /\ List.length id_bytes = 8%nat).
  { exists (firstn 8 buffer), (nth 8 buffer x00). split.
    - do 9 (destruct buffer as [|? buffer]; [simpl in Hlen; lia|]). reflexivity.
    - rewrite length_firstn. lia. }
  destruct Hshape as (id_bytes & b & Hshape & Hid).
  rewrite Hshape, parse_args_struct in Hfirst by exact Hid.
  injection Hfirst as <-.
  exists (le_int id_bytes), (byte_to_Z b).
  pose proof (le_int_range id_bytes) as Hr. rewrite Hid in Hr.
  change (256 ^ Z.of_nat 8) with (2 ^ 64) in Hr.
  pose proof (byte_to_Z_range b) as Hb.
  repeat apply conj; try reflexivity; try lia.
  rewrite encoded_args_eq, (fits_u64 _ Hr), (fits_u8 _ Hb), Hshape.
  rewrite <- Hid at 1. rewrite le_bytes_le_int.
  replace (byte_to_Z b) with (byte_to_Z b + 256 * 0) by lia.
  now rewrite byte_of_to_Z.
Qed.

(** ** The struct codec, for any schema *)

Lemma struct_size_cons (name : string) (sc : subcon) (s : CStruct) :
  struct_size ((name, sc) :: s) = (sizeof sc + struct_size s)%nat.
Proof. reflexivity. Qed.



Lemma parse_stream_long (s : CStruct) (data : bytes) :
  (struct_size s <= List.length data)%nat ->
  exists obj, parse_stream s data = Ok (obj, skipn (struct_size s) data).
Proof.
  intros Hlen.
  destruct (parse_stream_exact s (firstn (struct_size s) data)) as (obj & _ & Hobj).
  { rewrite length_firstn. lia. }
  exists obj. rewrite <- (firstn_skipn (struct_size s) data) at 1. apply Hobj.
Qed.

Lemma parse_subcon_long (sc : subcon) (data : bytes) :
  (sizeof sc <= List.length data)%nat ->
  parse_subcon sc data
  = Ok (parse_value sc (firstn (sizeof sc) data), skipn (sizeof sc) data).
Proof.
  intros Hlen. unfold parse_subcon, stream_read.
  replace (Nat.leb (sizeof sc) (List.length data)) with true
    by (symmetry; now apply Nat.leb_le).
  reflexivity.
Qed.

Lemma struct_size_app (pre post : CStruct) :
  struct_size (pre ++ post) = (struct_size pre + struct_size post)%nat.
Proof.
  induction pre as [|[name sc] pre IH]; [reflexivity|].
  cbn [app]. rewrite !struct_size_cons, IH. lia.
Qed.

(** The value a field parses to is read at the field's offset, the sum of the
    widths before it. *)
Lemma parse_stream_field (pre post : CStruct) (name : string) (sc : subcon) (data : bytes) :
  (struct_size (pre ++ (name, sc) :: post) <= List.length data)%nat ->
  ~ In name (map fst pre) ->
  exists obj rest,
    parse_stream (pre ++ (name, sc) :: post) data = Ok (obj, rest)
    /\ dict_get obj name
       = Ok (parse_value sc (firstn (sizeof sc) (skipn (struct_size pre) data))).
Proof.
  revert data. induction pre as [|[name0 sc0] pre IH]; intros data Hlen Hnotin.
  - cbn [app] in *. rewrite struct_size_cons in Hlen.
    cbn [parse_stream]. rewrite parse_subcon_long by lia. cbn [rbind].
    destruct (parse_stream_long post (skipn (sizeof sc) data)) as (obj & Hobj).
    { rewrite length_skipn. lia. }
    rewrite Hobj. cbn [rbind]. eexists. eexists. split; [reflexivity|].
    cbn [dict_get]. now rewrite String.eqb_refl.
  - cbn [app] in *. rewrite struct_size_cons in Hlen.
    cbn [parse_stream]. rewrite parse_subcon_long by lia. cbn [rbind].
    destruct (IH (skipn (sizeof sc0) data)) as (obj & rest & Hobj & Hget).
    { rewrite length_skipn. lia. }
    { intros Hin. apply Hnotin. now right. }
    rewrite Hobj. cbn [rbind]. eexists. eexists. split; [reflexivity|].
    cbn [dict_get].
    replace (String.eqb name name0) with false.
    + rewrite Hget, skipn_skipn, struct_size_cons.
      now rewrite (Nat.add_comm (struct_size pre)).
    + symmetry. apply String.eqb_neq. intros ->. apply Hnotin. now left.
Qed.

Lemma parse_field (s : CStruct) (k : nat) (name : string) (sc : subcon) (data : bytes) :
  nth_error s k = Some (name, sc) ->
  ~ In name (map fst (firstn k s)) ->
  (struct_size s <= List.length data)%nat ->
  exists obj,
    parse s data = Ok obj
    /\ dict_get obj name
       = Ok (parse_value sc (firstn (sizeof sc) (skipn (struct_size (firstn k s)) data))).
Proof.
  intros Hnth Hnotin Hlen.
  destruct (nth_error_split s k Hnth) as (pre & post & Hs & Hk).
  assert (Hpre : firstn k s = pre).
  { rewrite Hs, <- Hk, firstn_app, Nat.sub_diag, firstn_all. cbn [firstn].
    apply app_nil_r. }
  rewrite Hpre in *. rewrite Hs in Hlen.
  destruct (parse_stream_field pre post name sc data Hlen Hnotin)
    as (obj & rest & Hobj & Hget).
  exists obj. unfold parse. rewrite Hs, Hobj. now split.
Qed.

Lemma firstn_1_skipn {A} (k : nat) (l : list A) (d : A) :
  (k < List.length l)%nat -> firstn 1 (skipn k l) = [nth k l d].
Proof.
  revert l. induction k as [|k IH]; intros [|x l] Hlen; simpl in Hlen; try lia.
  - reflexivity.
  - cbn [skipn nth]. apply IH. lia.
Qed.


(** X7: in a buffer of 320 bytes or more the account decoder reads
    [config_vault_id] from bytes 0-7 (little-endian), [config_paused] from
    byte 72 (true unless the byte is zero), [config_deposit_sub_account] from
    byte 105 and [config_withdraw_sub_account] from byte 106. *)
Theorem account_field_offsets (data : bytes) :
  (320 <= List.length data)%nat ->
  exists record,
    parse boring_vault_flat_struct data = Ok record
    /\ dict_get record "config_vault_id" = Ok (VInt (le_int (firstn 8 data)))
    /\ dict_get record "config_paused"
       = Ok (VBool (negb (Byte.eqb (nth 72 data x00) x00)))
    /\ dict_get record "config_deposit_sub_account"
       = Ok (VInt (byte_to_Z (nth 105 data x00)))
    /\ dict_get record "config_withdraw_sub_account"
       = Ok (VInt (byte_to_Z (nth 106 data x00))).
Proof.
  intros Hlen.
  assert (Hfield : forall k name sc,
             nth_error boring_vault_flat_struct k = Some (name, sc) ->
             ~ In name (map fst (firstn k boring_vault_flat_struct)) ->
             exists obj,
               parse boring_vault_flat_struct data = Ok obj
               /\ dict_get obj name
                  = Ok (parse_value sc
                          (firstn (sizeof sc)
                             (skipn (struct_size (firstn k boring_vault_flat_struct)) data)))).
  { intros k name sc Hnth Hnotin. now apply parse_field. }
  destruct (parse boring_vault_flat_struct data) as [record|e] eqn:Hparse.
  2:{ destruct (Hfield 0%nat "config_vault_id"%string U64 eq_refl) as (? & [=] & _).
      intros []. }
  exists record. split; [reflexivity|].
  assert (Hnotin : forall k name,
             (forallb (fun n => negb (String.eqb name n))
                (map fst (firstn k boring_vault_flat_struct))) = true ->
             ~ In name (map fst (firstn k boring_vault_flat_struct))).
  { intros k name Hall Hin. rewrite forallb_forall in Hall.
    specialize (Hall _ Hin). now rewrite String.eqb_refl in Hall. }
  repeat apply conj.
  - destruct (Hfield 0%nat "config_vault_id"%string U64 eq_refl) as (obj & [= <-] & Hget).
    { intros []. }
    exact Hget.
  - destruct (Hfield 3%nat "config_paused"%string Bool eq_refl) as (obj & [= <-] & Hget).
    { now apply Hnotin. }
    rewrite Hget. change (struct_size (firstn 3 boring_vault_flat_struct)) with 72%nat.
    cbn [sizeof parse_value]. rewrite (firstn_1_skipn _ _ x00) by lia.
    cbn [bytes_eqb]. now rewrite andb_true_r.
  - destruct (Hfield 5%nat "config_deposit_sub_account"%string U8 eq_refl)
      as (obj & [= <-] & Hget).
    { now apply Hnotin. }
    rewrite Hget. change (struct_size (firstn 5 boring_vault_flat_struct)) with 105%nat.
    cbn [sizeof parse_value]. rewrite (firstn_1_skipn _ _ x00) by lia.
    cbn [le_int]. do 2 f_equal. lia.
  - destruct (Hfield 6%nat "config_withdraw_sub_account"%string U8 eq_refl)
      as (obj & [= <-] & Hget).
    { now apply Hnotin. }
    rewrite Hget. change (struct_size (firstn 6 boring_vault_flat_struct)) with 106%nat.
    cbn [sizeof parse_value]. rewrite (firstn_1_skipn _ _ x00) by lia.
    cbn [le_int]. do 2 f_equal. lia.
Qed.

(** ** tools/query_vault.py *)

Lemma account_vault_id_range (account_data : bytes) :
  0 <= account_vault_id account_data < 2 ^ 64.
Proof.
  unfold account_vault_id.
  pose proof (le_int_range (firstn 8 (skipn 8 account_data))) as H.
  assert (Hlen : (List.length (firstn 8 (skipn 8 account_data)) <= 8)%nat)
    by (rewrite length_firstn; lia).
  assert (Hpow : 256 ^ Z.of_nat (List.length (firstn 8 (skipn 8 account_data))) <= 2 ^ 64).
  { change (2 ^ 64) with (256 ^ 8). apply Z.pow_le_mono_r; lia. }
  lia.
Qed.

(** X8: the vault id [get_vault_info] reads from account data is always
    between 0 and 2^64-1 and no data is refused for its length: it depends on
    bytes 8-15 only, and data that stops at byte 8 or before reads as 0. *)
Theorem account_vault_id_any_data (account_data : bytes) :
  0 <= account_vault_id account_data < 2 ^ 64
  /\ account_vault_id (firstn 16 account_data) = account_vault_id account_data
  /\ account_vault_id (firstn 8 account_data) = 0.
Proof.
  repeat apply conj; try apply account_vault_id_range.
  - unfold account_vault_id. f_equal.
    rewrite skipn_firstn_comm. cbn [Nat.sub]. rewrite firstn_firstn. reflexivity.
  - unfold account_vault_id.
    rewrite skipn_firstn_comm. reflexivity.
Qed.

(** X9: the query tool reads back the identifier the connectors encode: after
    any 8-byte tag, the eight bytes [vault_id.to_bytes(8, 'little')] read as
    [vault_id], whatever follows. *)
Theorem account_vault_id_round_trip (tag rest id_bytes : bytes) (vault_id : Z) :
  List.length tag = 8%nat ->
  int_to_bytes vault_id 8 = Ok id_bytes ->
  account_vault_id (tag ++ id_bytes ++ rest) = vault_id.
Proof.
  intros Htag Hid. unfold int_to_bytes in Hid.
  destruct (fits 8 vault_id) eqn:Hfits; [|discriminate].
  assert (Hbytes : id_bytes = le_bytes 8 vault_id) by congruence.
  assert (Hval : le_int id_bytes = vault_id)
    by (rewrite Hbytes; now apply le_int_le_bytes_fits).
  assert (Hlen : List.length id_bytes = 8%nat)
    by (rewrite Hbytes; apply length_le_bytes).
  clear Hid Hbytes. unfold account_vault_id.
  rewrite skipn_app, Htag, Nat.sub_diag, skipn_all2 by lia.
  change (skipn 0 (id_bytes ++ rest)) with (id_bytes ++ rest).
  change ([] ++ id_bytes ++ rest) with (id_bytes ++ rest).
  rewrite firstn_app, Hlen, Nat.sub_diag, firstn_all2 by lia.
  change (firstn 0 rest) with (@nil byte). now rewrite app_nil_r.
Qed.

(** X10: on an account of 328 bytes or more the query tool and the tests'
    decoder agree: the [config_vault_id] parsed from the data after the 8-byte
    tag is the vault id [get_vault_info] reads. *)
Theorem account_vault_id_is_config_vault_id (account : bytes) :
  (328 <= List.length account)%nat ->
  exists record,
    parse boring_vault_flat_struct (skipn 8 account) = Ok record
    /\ dict_get record "config_vault_id" = Ok (VInt (account_vault_id account)).
Proof.
  intros Hlen.
  destruct (parse_field boring_vault_flat_struct 0 "config_vault_id"%string U64
              (skipn 8 account) eq_refl) as (record & Hparse & Hget).
  - intros [].
  - change (struct_size boring_vault_flat_struct) with 320%nat.
    rewrite length_skipn. lia.
  - exists record. split; [exact Hparse|]. exact Hget.
Qed.

Lemma collect_vaults_spec (accounts : list account_entry) (vaults : list Vault) :
  collect_vaults accounts vaults =
  if forallb (fun account => match entry_pubkey account with
                             | Some _ => true
                             | None => false
                             end) accounts
  then Some (vaults ++
             flat_map (fun account =>
                         match entry_pubkey account, entry_data account with
                         | Some pk, Some account_data =>
                             [{| Vault_pubkey := pk;
                                 Vault_vault_id := account_vault_id account_data |}]
                         | _, _ => []
                         end) accounts)
  else None.
Proof.
  revert vaults. induction accounts as [|account accounts IH]; intros vaults.
  - cbn. now rewrite app_nil_r.
  - cbn [collect_vaults forallb flat_map].
    destruct (entry_pubkey account) as [pk|]; [|reflexivity].
    cbn [andb]. destruct (entry_data account) as [account_data|]; rewrite IH.
    + destruct (forallb _ accounts); [|reflexivity]. now rewrite <- app_assoc.
    + reflexivity.
Qed.

(** X11: with an API key set, [get_vault_info] never raises.  When every
    account of the response has a pubkey it returns, in the order of the
    response, one vault for each account whose data decodes, with that
    account's pubkey and an id between 0 and 2^64-1, skipping the others;
    when one account has no pubkey it returns the empty list, whatever the
    other accounts are. *)
Theorem get_vault_info_result
    (c : Ascii.ascii) (key : str) (post : str -> string -> rpc_response)
    (program_id : string) (rpc_url : str) (accounts : list account_entry) :
  post rpc_url program_id = Result accounts ->
  exists vaults,
    get_vault_info (Some (c :: key)) post program_id rpc_url = Ok vaults
    /\ vaults =
       (if forallb (fun account => match entry_pubkey account with
                                   | Some _ => true
                                   | None => false
                                   end) accounts
        then flat_map (fun account =>
                         match entry_pubkey account, entry_data account with
                         | Some pk, Some account_data =>
                             [{| Vault_pubkey := pk;
                                 Vault_vault_id := account_vault_id account_data |}]
                         | _, _ => []
                         end) accounts
        else [])
    /\ (List.length vaults <= List.length accounts)%nat
    /\ Forall (fun v => 0 <= Vault_vault_id v < 2 ^ 64) vaults.
Proof.
  intros Hpost. unfold get_vault_info. rewrite Hpost, collect_vaults_spec.
  cbn [app].
  destruct (forallb _ accounts).
  - eexists. split; [reflexivity|]. split; [reflexivity|]. split.
    + clear. induction accounts as [|account accounts IH]; [reflexivity|].
      cbn [flat_map]. rewrite length_app.
      destruct (entry_pubkey account), (entry_data account); cbn [List.length]; lia.
    + apply Forall_forall. intros v Hin. apply in_flat_map in Hin as (account & _ & Hv).
      destruct (entry_pubkey account), (entry_data account); try contradiction.
      destruct Hv as [<-|[]]. apply account_vault_id_range.
  - exists []. repeat apply conj; try reflexivity; [cbn; lia|constructor].
Qed.

Lemma py_slice_incl {A} (l : list A) (start stop : Z) (x : A) :
  In x (py_slice l start stop) -> In x l.
Proof.
  unfold py_slice. set (i := Z.to_nat _). set (k := Z.to_nat _). intros H.
  rewrite <- (firstn_skipn k l). apply in_or_app. right.
  rewrite <- (firstn_skipn i (skipn k l)). apply in_or_app. now left.
Qed.

Lemma py_slice_window {A} (l : list A) (start count : Z) :
  0 <= start -> 0 <= count ->
  let n := Z.of_nat (List.length l) in
  py_slice l (Z.min start n) (Z.min (Z.min start n + count) n)
  = firstn (Z.to_nat count) (skipn (Z.to_nat start) l).
Proof.
  intros Hs Hc n. unfold py_slice. fold n.
  assert (Hn : 0 <= n) by (unfold n; lia).
  replace (Z.min start n <? 0) with false by (symmetry; apply Z.ltb_ge; lia).
  replace (Z.min (Z.min start n + count) n <? 0) with false
    by (symmetry; apply Z.ltb_ge; lia).
  destruct (Z.le_gt_cases start n) as [Hle|Hgt].
  - rewrite (Z.min_l start n) by lia.
    destruct (Z.le_gt_cases (start + count) n) as [Hle2|Hgt2].
    + rewrite !Z.min_l by lia. f_equal. lia.
    + rewrite (Z.min_r (start + count) n), (Z.min_r n n), (Z.min_l start n) by lia.
      rewrite !firstn_all2; [reflexivity| |]; rewrite length_skipn; unfold n in *; lia.
  - rewrite (Z.min_r start n) by lia.
    rewrite (Z.min_r (n + count) n), (Z.min_r n n) by lia.
    rewrite !skipn_all2 by (unfold n in *; lia).
    now rewrite !firstn_nil.
Qed.

(** X12: with a start index and a limit that are not negative, [main] checks
    the vaults from position [start_index] on, at most [limit] of them, of
    the list left by the vault-id filter; the filter is applied for an id
    other than 0 and not applied when no id, or the id 0, is given. *)
Theorem select_vaults_window
    (vault_accounts : list Vault) (vault_id : option Z) (limit start_index : Z) :
  0 <= start_index ->
  0 <= limit ->
  let kept := match vault_id with
              | Some id =>
                  if id =? 0 then vault_accounts
                  else filter (fun v => Vault_vault_id v =? id) vault_accounts
              | None => vault_accounts
              end in
  select_vaults vault_accounts vault_id limit start_index
  = firstn (Z.to_nat limit) (skipn (Z.to_nat start_index) kept)
  /\ Z.of_nat (List.length (select_vaults vault_accounts vault_id limit start_index)) <= limit.
Proof.
  intros Hs Hl kept.
  assert (Heq : select_vaults vault_accounts vault_id limit start_index
                = firstn (Z.to_nat limit) (skipn (Z.to_nat start_index) kept)).
  { unfold select_vaults. fold kept. cbn zeta. now apply py_slice_window. }
  split; [exact Heq|].
  rewrite Heq, length_firstn. lia.
Qed.

(** X13: whatever the start index and the limit are, negative ones included,
    every vault [main] checks is one of the vaults it was given, and has the
    id asked for when a non-zero id was given. *)
Theorem select_vaults_sound
    (vault_accounts : list Vault) (vault_id : option Z) (limit start_index : Z)
    (v : Vault) :
  In v (select_vaults vault_accounts vault_id limit start_index) ->
  In v vault_accounts
  /\ forall id, vault_id = Some id -> id <> 0 -> Vault_vault_id v = id.
Proof.
  unfold select_vaults. cbn zeta. intros Hin. apply py_slice_incl in Hin.
  destruct vault_id as [id|].
  - destruct (id =? 0) eqn:E.
    + split; [exact Hin|]. intros id' [= <-] Hne. apply Z.eqb_eq in E. contradiction.
    + apply filter_In in Hin as [Hin Hid]. split; [exact Hin|].
      intros id' [= <-] _. now apply Z.eqb_eq.
  - split; [exact Hin|]. discriminate.
Qed.

Lemma startswith_app (p t : str) : startswith (p ++ t) p = true.
Proof.
  induction p as [|c p IH]; [now destruct t|].
  cbn [app startswith]. now rewrite Ascii.eqb_refl, IH.
Qed.

Lemma endswith_app (s suffix : str) : endswith (s ++ suffix) suffix = true.
Proof.
  unfold endswith. rewrite rev_app_distr. apply startswith_app.
Qed.

(** X14: the API key is appended to the RPC URL at most once: a URL that
    mentions alchemy.com ends with the key afterwards, a URL that does not is
    left as it is, and doing the step again changes nothing. *)
Theorem rpc_url_key_appended_once (rpc_url key : str) :
  rpc_url_with_key (rpc_url_with_key rpc_url key) key = rpc_url_with_key rpc_url key
  /\ (if contains rpc_url (list_ascii_of_string "alchemy.com")
      then endswith (rpc_url_with_key rpc_url key) key = true
      else rpc_url_with_key rpc_url key = rpc_url).
Proof.
  assert (Hcases : rpc_url_with_key rpc_url key = rpc_url
                   \/ endswith (rpc_url_with_key rpc_url key) key = true
                      /\ contains rpc_url (list_ascii_of_string "alchemy.com") = true).
  { unfold rpc_url_with_key.
    destruct (contains rpc_url _); cbn [andb]; [|now left].
    destruct (endswith rpc_url key); cbn [negb]; [now left|].
    right. split; [|reflexivity]. rewrite app_assoc. apply endswith_app. }
  split.
  - destruct Hcases as [Hsame|[Hends _]].
    + now rewrite !Hsame.
    + unfold rpc_url_with_key at 1. rewrite Hends.
      cbn [negb]. now rewrite andb_false_r.
  - unfold rpc_url_with_key.
    destruct (contains rpc_url _); cbn [andb]; [|reflexivity].
    destruct (endswith rpc_url key) eqn:E; cbn [negb]; [exact E|].
    rewrite app_assoc. apply endswith_app.
Qed.

(** ** python/tests/test_sub_accounts.py *)

(** A test, step by step after its connector. *)
Ltac unfold_test Hrun :=
  cbn zeta; unfold bind at 1; rewrite Hrun;
  unfold bind at 1, confirm_transaction;
  match goal with
  | |- context [confirm_transaction_resp ?c ?l ?s] =>
      destruct (confirm_transaction_resp c l s) as [?confirmed|?e]
  end; [|reflexivity];
  unfold derive;
  step_pure; destruct (int_to_bytes _ 8) as [?idb|?e]; [|reflexivity];
  cbn [rbind];
  step_pure; destruct (find_program_address _ _) as [[?pda ?bump]|?e]; [|reflexivity];
  unfold bind at 1, get_account_info; rewrite <- app_assoc; cbn [app];
  match goal with
  | |- context [account_info_resp ?c ?l ?a] =>
      destruct (account_info_resp c l a) as [[?account|]|?e]
  end; [| reflexivity | reflexivity];
  step_pure; destruct (parse _ _) as [?decoded|?e]; [|reflexivity];
  step_pure; destruct (dict_get _ _) as [?field|?e]; [|reflexivity];
  unfold assert, pure; reflexivity.

Lemma test_set_deposit_sub_account_after client program_id authority vault_id log sig log' :
  set_deposit_sub_account client program_id vault_id 5 authority log = (Ok sig, log') ->
  test_set_deposit_sub_account client program_id authority vault_id log =
  match confirm_transaction_resp client log' sig with
  | Err e => (Err e, log' ++ [ConfirmTransaction sig])
  | Ok _ =>
      match derive program_id BASE_SEED_BORING_VAULT_STATE vault_id with
      | Err e => (Err e, log' ++ [ConfirmTransaction sig])
      | Ok (vault_state_pda, _) =>
          (match account_info_resp client (log' ++ [ConfirmTransaction sig])
                   vault_state_pda with
           | Err e => Err e
           | Ok None => Err AssertionError
           | Ok (Some account) =>
               match parse boring_vault_flat_struct (skipn 8 account) with
               | Err e => Err e
               | Ok decoded_data =>
                   match dict_get decoded_data "config_deposit_sub_account" with
                   | Err e => Err e
                   | Ok field =>
                       if value_eqb field (VInt 5) then Ok tt else Err AssertionError
                   end
               end
           end,
           log' ++ [ConfirmTransaction sig; GetAccountInfo vault_state_pda])
      end
  end.
Proof.
  intros Hrun. unfold test_set_deposit_sub_account. unfold_test Hrun.
Qed.

Lemma test_set_withdraw_sub_account_after client program_id authority vault_id log sig log' :
  set_withdraw_sub_account client program_id vault_id 10 authority log = (Ok sig, log') ->
  test_set_withdraw_sub_account client program_id authority vault_id log =
  match confirm_transaction_resp client log' sig with
  | Err e => (Err e, log' ++ [ConfirmTransaction sig])
  | Ok _ =>
      match derive program_id BASE_SEED_BORING_VAULT_STATE vault_id with
      | Err e => (Err e, log' ++ [ConfirmTransaction sig])
      | Ok (vault_state_pda, _) =>
          (match account_info_resp client (log' ++ [ConfirmTransaction sig])
                   vault_state_pda with
           | Err e => Err e
           | Ok None => Err AssertionError
           | Ok (Some account) =>
               match parse boring_vault_flat_struct (skipn 8 account) with
               | Err e => Err e
               | Ok decoded_data =>
                   match dict_get decoded_data "config_withdraw_sub_account" with
                   | Err e => Err e
                   | Ok field =>
                       if value_eqb field (VInt 10) then Ok tt else Err AssertionError
                   end
               end
           end,
           log' ++ [ConfirmTransaction sig; GetAccountInfo vault_state_pda])
      end
  end.
Proof.
  intros Hrun. unfold test_set_withdraw_sub_account. unfold_test Hrun.
Qed.

Lemma flat_u8_field (k : nat) (name : string) (data : bytes) :
  nth_error boring_vault_flat_struct k = Some (name, U8) ->
  forallb (fun n => negb (String.eqb name n))
    (map fst (firstn k boring_vault_flat_struct)) = true ->
  (320 <= List.length data)%nat ->
  exists record,
    parse boring_vault_flat_struct data = Ok record
    /\ dict_get record name
       = Ok (VInt (byte_to_Z
                     (nth (struct_size (firstn k boring_vault_flat_struct)) data x00))).
Proof.
  intros Hnth Hall Hlen.
  assert (Hk : (struct_size (firstn k boring_vault_flat_struct) < 320)%nat).
  { change 320%nat with (struct_size boring_vault_flat_struct).
    destruct (nth_error_split _ _ Hnth) as (pre & post & Hs & Hlk).
    rewrite Hs at 2. rewrite Hs, <- Hlk, firstn_app, Nat.sub_diag, firstn_all.
    cbn [firstn]. rewrite app_nil_r, struct_size_app, struct_size_cons.
    cbn [sizeof]. lia. }
  destruct (parse_field boring_vault_flat_struct k name U8 data Hnth) as (record & Hp & Hget).
  - intros Hin. rewrite forallb_forall in Hall. specialize (Hall _ Hin).
    now rewrite String.eqb_refl in Hall.
  - exact Hlen.
  - exists record. split; [exact Hp|]. rewrite Hget.
    cbn [sizeof parse_value]. rewrite (firstn_1_skipn _ _ x00) by lia.
    cbn [le_int]. do 2 f_equal. lia.
Qed.

Lemma parse_flat_short (data : bytes) :
  (List.length data < 320)%nat ->
  parse boring_vault_flat_struct data = Err StreamError.
Proof.
  intros Hlen. unfold parse. now rewrite parse_stream_short.
Qed.

(** X15: when the connector has returned, the confirmation has come back and
    the account request is answered, [test_set_deposit_sub_account] has made
    exactly those two further requests and its verdict depends on the account
    alone: [AssertionError] for no account, [StreamError] for fewer than 328
    bytes, and otherwise a pass exactly when byte 113 of the account, which is
    byte 105 after the 8-byte tag, is 5.  The tag and every other byte are
    not looked at. *)
Theorem test_set_deposit_sub_account_verdict
    (client : Client) (program_id : Pubkey) (authority : Keypair) (vault_id : Z)
    (log log' : list request) (sig : Signature) (confirmed : bool)
    (vault_state_pda : Pubkey) (bump : Z) (account_info : option bytes) :
  set_deposit_sub_account client program_id vault_id 5 authority log = (Ok sig, log') ->
  confirm_transaction_resp client log' sig = Ok confirmed ->
  derive program_id BASE_SEED_BORING_VAULT_STATE vault_id = Ok (vault_state_pda, bump) ->
  account_info_resp client (log' ++ [ConfirmTransaction sig]) vault_state_pda
    = Ok account_info ->
  test_set_deposit_sub_account client program_id authority vault_id log
  = (match account_info with
     | None => Err AssertionError
     | Some account =>
         if Nat.leb 328 (List.length account)
         then if byte_to_Z (nth 113 account x00) =? 5 then Ok tt else Err AssertionError
         else Err StreamError
     end,
     log' ++ [ConfirmTransaction sig; GetAccountInfo vault_state_pda]).
Proof.
  intros Hrun Hconfirm Hpda Hinfo.
  rewrite (test_set_deposit_sub_account_after _ _ _ _ _ _ _ Hrun), Hconfirm, Hpda, Hinfo.
  f_equal. destruct account_info as [account|]; [|reflexivity].
  destruct (Nat.leb 328 (List.length account)) eqn:E.
  - apply Nat.leb_le in E.
    destruct (flat_u8_field 5 "config_deposit_sub_account" (skipn 8 account) eq_refl eq_refl)
      as (record & -> & ->).
    { rewrite length_skipn. lia. }
    change (struct_size (firstn 5 boring_vault_flat_struct)) with 105%nat.
    rewrite nth_skipn. reflexivity.
  - apply Nat.leb_gt in E. rewrite parse_flat_short; [reflexivity|].
    rewrite length_skipn. lia.
Qed.

(** X16: the same for [test_set_withdraw_sub_account]: it passes exactly when
    byte 114 of the account, byte 106 after the tag, is 10. *)
Theorem test_set_withdraw_sub_account_verdict
    (client : Client) (program_id : Pubkey) (authority : Keypair) (vault_id : Z)
    (log log' : list request) (sig : Signature) (confirmed : bool)
    (vault_state_pda : Pubkey) (bump : Z) (account_info : option bytes) :
  set_withdraw_sub_account client program_id vault_id 10 authority log = (Ok sig, log') ->
  confirm_transaction_resp client log' sig = Ok confirmed ->
  derive program_id BASE_SEED_BORING_VAULT_STATE vault_id = Ok (vault_state_pda, bump) ->
  account_info_resp client (log' ++ [ConfirmTransaction sig]) vault_state_pda
    = Ok account_info ->
  test_set_withdraw_sub_account client program_id authority vault_id log
  = (match account_info with
     | None => Err AssertionError
     | Some account =>
         if Nat.leb 328 (List.length account)
         then if byte_to_Z (nth 114 account x00) =? 10 then Ok tt else Err AssertionError
         else Err StreamError
     end,
     log' ++ [ConfirmTransaction sig; GetAccountInfo vault_state_pda]).
Proof.
  intros Hrun Hconfirm Hpda Hinfo.
  rewrite (test_set_withdraw_sub_account_after _ _ _ _ _ _ _ Hrun), Hconfirm, Hpda, Hinfo.
  f_equal. destruct account_info as [account|]; [|reflexivity].
  destruct (Nat.leb 328 (List.length account)) eqn:E.
  - apply Nat.leb_le in E.
    destruct (flat_u8_field 6 "config_withdraw_sub_account" (skipn 8 account) eq_refl eq_refl)
      as (record & -> & ->).
    { rewrite length_skipn. lia. }
    change (struct_size (firstn 6 boring_vault_flat_struct)) with 106%nat.
    rewrite nth_skipn. reflexivity.
  - apply Nat.leb_gt in E. rewrite parse_flat_short; [reflexivity|].
    rewrite length_skipn. lia.
Qed.

Lemma set_deposit_sub_account_instruction_Ok program_id vault_id new_sub_account authority ins :
  set_deposit_sub_account_instruction program_id vault_id new_sub_account authority = Ok ins ->
  exists vault_state_pda bump,
    derive program_id BASE_SEED_BORING_VAULT_STATE vault_id = Ok (vault_state_pda, bump)
    /\ accounts ins =
       [ {| pubkey := Keypair_pubkey authority; is_signer := true; is_writable := false |};
         {| pubkey := vault_state_pda; is_signer := false; is_writable := true |} ].
Proof.
  rewrite set_deposit_sub_account_instruction_eq.
  destruct (derive _ _ _) as [[pda bump]|e]; cbn [rbind fst]; [|discriminate].
  destruct (set_deposit_sub_account_data _ _) as [d|e]; cbn [rbind]; [|discriminate].
  intros [= <-]. now exists pda, bump.
Qed.

Lemma set_withdraw_sub_account_instruction_Ok program_id vault_id new_sub_account authority ins :
  set_withdraw_sub_account_instruction program_id vault_id new_sub_account authority = Ok ins ->
  exists vault_state_pda bump,
    derive program_id BASE_SEED_BORING_VAULT_STATE vault_id = Ok (vault_state_pda, bump)
    /\ accounts ins =
       [ {| pubkey := Keypair_pubkey authority; is_signer := true; is_writable := false |};
         {| pubkey := vault_state_pda; is_signer := false; is_writable := true |} ].
Proof.
  rewrite set_withdraw_sub_account_instruction_eq.
  destruct (derive _ _ _) as [[pda bump]|e]; cbn [rbind fst]; [|discriminate].
  destruct (set_withdraw_sub_account_data _ _) as [d|e]; cbn [rbind]; [|discriminate].
  intros [= <-]. now exists pda, bump.
Qed.

Lemma test_set_deposit_sub_account_stops client program_id authority vault_id log e log' :
  set_deposit_sub_account client program_id vault_id 5 authority log = (Err e, log') ->
  test_set_deposit_sub_account client program_id authority vault_id log = (Err e, log').
Proof.
  intros Hrun. unfold test_set_deposit_sub_account. cbn zeta.
  unfold bind at 1. now rewrite Hrun.
Qed.

Lemma test_set_withdraw_sub_account_stops client program_id authority vault_id log e log' :
  set_withdraw_sub_account client program_id vault_id 10 authority log = (Err e, log') ->
  test_set_withdraw_sub_account client program_id authority vault_id log = (Err e, log').
Proof.
  intros Hrun. unfold test_set_withdraw_sub_account. cbn zeta.
  unfold bind at 1. now rewrite Hrun.
Qed.

(** The requests of a test, from what its connector did and what the test
    does after it. *)
Lemma request_sequence_of_test
    (client : Client) (program_id : Pubkey) (authority : Keypair) (vault_id : Z)
    (log : list request)
    (built : result Instruction)
    (connector : result Signature * list request)
    (test : result unit * list request) :
  connector = match built with
              | Ok ins => submit client authority ins log
              | Err e => (Err e, log)
              end ->
  (forall ins, built = Ok ins ->
     exists vault_state_pda bump,
       derive program_id BASE_SEED_BORING_VAULT_STATE vault_id = Ok (vault_state_pda, bump)
       /\ accounts ins =
          [ {| pubkey := Keypair_pubkey authority; is_signer := true; is_writable := false |};
            {| pubkey := vault_state_pda; is_signer := false; is_writable := true |} ]) ->
  (forall e log', connector = (Err e, log') -> test = (Err e, log')) ->
  (forall sig log', connector = (Ok sig, log') ->
     snd test =
     match confirm_transaction_resp client log' sig with
     | Err _ => log' ++ [ConfirmTransaction sig]
     | Ok _ =>
         match derive program_id BASE_SEED_BORING_VAULT_STATE vault_id with
         | Err _ => log' ++ [ConfirmTransaction sig]
         | Ok (vault_state_pda, _) =>
             log' ++ [ConfirmTransaction sig; GetAccountInfo vault_state_pda]
         end
     end) ->
  exists reqs, snd test = log ++ reqs /\ test_request_sequence authority reqs.
Proof.
  intros Hconnector Hbuilt Hstops Hafter.
  pose (no_ins := {| program_id := program_id; data := [];
                     accounts :=
                       [ {| pubkey := Keypair_pubkey authority;
                            is_signer := true; is_writable := false |};
                         {| pubkey := []; is_signer := false; is_writable := true |} ] |}).
  destruct built as [ins|e].
  - destruct (Hbuilt ins eq_refl) as (pda & bump & Hpda & Hacc).
    rewrite submit_run in Hconnector by (now exists pda).
    destruct (latest_blockhash_resp client log) as [blockhash|e].
    + cbn zeta in Hconnector.
      destruct (send_transaction_resp client (log ++ [GetLatestBlockhash])
                  (transaction_of authority ins blockhash)) as [sig|e].
      * rewrite (Hafter _ _ Hconnector), Hpda.
        destruct (confirm_transaction_resp client _ sig) as [confirmed|e].
        -- exists [GetLatestBlockhash;
                   SendTransaction (transaction_of authority ins blockhash);
                   ConfirmTransaction sig; GetAccountInfo pda].
           split; [now rewrite <- app_assoc|].
           exists ins, blockhash, sig, pda, []. now split.
        -- exists [GetLatestBlockhash;
                   SendTransaction (transaction_of authority ins blockhash);
                   ConfirmTransaction sig].
           split; [now rewrite <- app_assoc|].
           exists ins, blockhash, sig, pda, [GetAccountInfo pda]. now split.
      * rewrite (Hstops _ _ Hconnector).
        exists [GetLatestBlockhash; SendTransaction (transaction_of authority ins blockhash)].
        split; [reflexivity|].
        exists ins, blockhash, [], pda, [ConfirmTransaction []; GetAccountInfo pda].
        now split.
    + rewrite (Hstops _ _ Hconnector).
      exists [GetLatestBlockhash]. split; [reflexivity|].
      exists ins, [], [], pda,
        [SendTransaction (transaction_of authority ins []);
         ConfirmTransaction []; GetAccountInfo pda].
      now split.
  - rewrite (Hstops _ _ Hconnector).
    exists []. split; [now rewrite app_nil_r|].
    exists no_ins, [], [], [],
      [GetLatestBlockhash; SendTransaction (transaction_of authority no_ins []);
       ConfirmTransaction []; GetAccountInfo []].
    now split.
Qed.

(** X17: whatever the client answers, a run of either test adds to the log an
    initial part of one fixed sequence: the blockhash fetch, one send, the
    confirmation, and one read of the account whose address is the writable
    account of the instruction sent.  So a test never sends twice, never
    confirms or reads before it has sent, and reads the address it wrote
    to. *)
Theorem tests_request_order
    (client : Client) (program_id : Pubkey) (authority : Keypair) (vault_id : Z)
    (log : list request) :
  (exists reqs,
     snd (test_set_deposit_sub_account client program_id authority vault_id log)
       = log ++ reqs
     /\ test_request_sequence authority reqs)
  /\ (exists reqs,
        snd (test_set_withdraw_sub_account client program_id authority vault_id log)
          = log ++ reqs
        /\ test_request_sequence authority reqs).
Proof.
  split.
  - eapply request_sequence_of_test.
    + apply set_deposit_sub_account_run.
    + apply set_deposit_sub_account_instruction_Ok.
    + apply test_set_deposit_sub_account_stops.
    + intros sig log' Hrun.
      rewrite (test_set_deposit_sub_account_after _ _ _ _ _ _ _ Hrun).
      destruct (confirm_transaction_resp client log' sig); [|reflexivity].
      destruct (derive _ _ _) as [[pda bump]|e]; reflexivity.
  - eapply request_sequence_of_test.
    + apply set_withdraw_sub_account_run.
    + apply set_withdraw_sub_account_instruction_Ok.
    + apply test_set_withdraw_sub_account_stops.
    + intros sig log' Hrun.
      rewrite (test_set_withdraw_sub_account_after _ _ _ _ _ _ _ Hrun).
      destruct (confirm_transaction_resp client log' sig); [|reflexivity].
      destruct (derive _ _ _) as [[pda bump]|e]; reflexivity.
Qed.

End Derivation.

(** * The theorems on the sample hash, curve, client and keys *)

Lemma encoded_args_layout_witness :
  0 <= 1 < 2 ^ 64 /\ 0 <= 5 < 256
  /\ encoded_args 1 5 = Ok (le_bytes 8 1 ++ [byte_of_Z 5]).
Proof.
  split; [lia|]. split; [lia|].
  apply (encoded_args_layout 1 5); lia.
Defined.

Lemma args_struct_round_trip_witness :
  0 <= 258 < 2 ^ 64 /\ 0 <= 255 < 256
  /\ exists encoded : bytes,
       encoded_args 258 255 = Ok encoded
       /\ List.length encoded = 9%nat
       /\ parse args_struct encoded
          = Ok [("vault_id", VInt 258); ("new_sub_account", VInt 255)]%string.
Proof.
  split; [lia|]. split; [lia|].
  apply (args_struct_round_trip 258 255); lia.
Defined.

Lemma set_deposit_sub_account_wire_format_witness :
  0 <= 1 < 2 ^ 64 /\ 0 <= 5 < 256
  /\ set_deposit_sub_account_data 1 5
     = Ok ([x87; xee; xda; x04; x78; x4d; xcf; x9c] ++ le_bytes 8 1 ++ [byte_of_Z 5]).
Proof.
  split; [lia|]. split; [lia|].
  apply (set_deposit_sub_account_wire_format
           sample_hash sample_on_curve sample_program_id sample_authority 1 5); lia.
Defined.

Lemma instruction_accounts_witness :
  exists ins,
    set_deposit_sub_account_instruction
      sample_hash sample_on_curve sample_program_id 1 5 sample_authority = Ok ins
    /\ exists vault_state_pda bump,
         derive sample_hash sample_on_curve sample_program_id
           BASE_SEED_BORING_VAULT_STATE 1 = Ok (vault_state_pda, bump)
         /\ accounts ins =
            [ {| pubkey := Keypair_pubkey sample_authority;
                 is_signer := true; is_writable := false |};
              {| pubkey := vault_state_pda; is_signer := false; is_writable := true |} ]
         /\ List.length (accounts ins) = 2%nat.
Proof.
  eexists. split.
  - vm_compute. reflexivity.
  - apply (instruction_accounts sample_hash sample_on_curve sample_program_id 1 5
             sample_authority).
    left. vm_compute. reflexivity.
Defined.

Lemma derive_deterministic_witness :
  let first := derive sample_hash sample_on_curve sample_program_id
                 BASE_SEED_BORING_VAULT_STATE 1 in
  let second := derive sample_hash sample_on_curve sample_program_id
                  BASE_SEED_BORING_VAULT_STATE 1 in
  0 <= 1 < 2 ^ 64
  /\ first = second
  /\ canonical sample_hash sample_on_curve
       [BASE_SEED_BORING_VAULT_STATE; le_bytes 8 1] sample_program_id first.
Proof.
  intros first second. split; [lia|].
  destruct (derive_deterministic sample_hash sample_on_curve sample_program_id
              BASE_SEED_BORING_VAULT_STATE 1 first second ltac:(lia) eq_refl eq_refl)
    as (Heq & Hcanonical & _).
  split; [exact Heq|exact Hcanonical].
Defined.

Lemma out_of_range_sub_account_rejected_witness :
  ~ (0 <= 256 < 256)
  /\ exists e,
       set_deposit_sub_account sample_hash sample_on_curve sample_client
         sample_program_id 1 256 sample_authority [] = (Err e, [])
       /\ set_withdraw_sub_account sample_hash sample_on_curve sample_client
            sample_program_id 1 256 sample_authority [] = (Err e, []).
Proof.
  split; [lia|].
  destruct (out_of_range_sub_account_rejected sample_hash sample_on_curve sample_client
              sample_program_id 1 256 sample_authority [] ltac:(lia))
    as (e & Hd & Hw & _).
  exists e. split; [exact Hd|exact Hw].
Defined.

Lemma submit_returns_without_confirming_witness :
  exists sig log',
    set_deposit_sub_account sample_hash sample_on_curve sample_client
      sample_program_id 1 5 sample_authority [] = (Ok sig, log')
    /\ (forall s, ~ In (ConfirmTransaction s) (skipn (List.length (@nil request)) log'))
    /\ exists r rest,
         test_set_deposit_sub_account sample_hash sample_on_curve sample_client
           sample_program_id sample_authority 1 []
         = (r, log' ++ ConfirmTransaction sig :: rest).
Proof.
  destruct (set_deposit_sub_account sample_hash sample_on_curve sample_client
              sample_program_id 1 5 sample_authority []) as [[sig|e] log'] eqn:Hrun.
  - exists sig, log'. split; [reflexivity|].
    destruct (submit_returns_without_confirming sample_hash sample_on_curve
                sample_client sample_program_id 1 5 sample_authority [] log' sig
                (or_introl Hrun)) as (_ & Hno & Htest & _).
    split; [exact Hno|exact (Htest Hrun)].
  - vm_compute in Hrun. discriminate Hrun.
Defined.

(** * The code run on the samples *)

Example sample_bump :
  rmap snd (derive sample_hash sample_on_curve sample_program_id
              BASE_SEED_BORING_VAULT_STATE 1) = Ok 253.
Proof. vm_compute. reflexivity. Qed.

Example vault_id_bytes_le : int_to_bytes 258 8 = Ok [x02; x01; x00; x00; x00; x00; x00; x00].
Proof. reflexivity. Qed.

Example vault_id_negative : int_to_bytes (-1) 8 = Err OverflowError.
Proof. reflexivity. Qed.

Example selector_too_big : encoded_args 1 256 = Err FormatFieldError.
Proof. reflexivity. Qed.

Example selector_negative : encoded_args 1 (-1) = Err FormatFieldError.
Proof. reflexivity. Qed.

Example args_short : parse args_struct [x01; x00; x00; x00; x00; x00; x00; x00] = Err StreamError.
Proof. reflexivity. Qed.

Example args_trailing :
  parse args_struct [x01; x00; x00; x00; x00; x00; x00; x00; x05; xff]
  = Ok [("vault_id", VInt 1); ("new_sub_account", VInt 5)]%string.
Proof. reflexivity. Qed.

Example deposit_test_passes :
  fst (test_set_deposit_sub_account sample_hash sample_on_curve sample_client
         sample_program_id sample_authority 1 []) = Ok tt.
Proof. vm_compute. reflexivity. Qed.

Example withdraw_test_fails_on_sample_account :
  fst (test_set_withdraw_sub_account sample_hash sample_on_curve sample_client
         sample_program_id sample_authority 1 []) = Err AssertionError.
Proof. vm_compute. reflexivity. Qed.

Example dead_client_stops_at_blockhash :
  set_deposit_sub_account sample_hash sample_on_curve dead_client
    sample_program_id 1 5 sample_authority []
  = (Err (TransportError 1), [GetLatestBlockhash]).
Proof. vm_compute. reflexivity. Qed.

Example dead_client_not_reached :
  set_withdraw_sub_account sample_hash sample_on_curve dead_client
    sample_program_id 1 (-3) sample_authority []
  = (Err FormatFieldError, []).
Proof. vm_compute. reflexivity. Qed.

(** * The further properties on the samples *)

Lemma vault_id_out_of_range_rejected_witness :
  ~ (0 <= 2 ^ 64 < 2 ^ 64)
  /\ set_deposit_sub_account sample_hash sample_on_curve sample_client
       sample_program_id (2 ^ 64) 5 sample_authority [] = (Err OverflowError, [])
  /\ set_withdraw_sub_account sample_hash sample_on_curve sample_client
       sample_program_id (2 ^ 64) 5 sample_authority [] = (Err OverflowError, []).
Proof.
  split; [lia|].
  apply (vault_id_out_of_range_rejected sample_hash sample_on_curve sample_client
           sample_program_id (2 ^ 64) 5 sample_authority []).
  lia.
Defined.

Lemma blockhash_failure_surfaces_witness :
  exists vault_state_pda bump,
    0 <= 1 < 2 ^ 64 /\ 0 <= 5 < 256
    /\ derive sample_hash sample_on_curve sample_program_id
         BASE_SEED_BORING_VAULT_STATE 1 = Ok (vault_state_pda, bump)
    /\ latest_blockhash_resp dead_client [] = Err (TransportError 1)
    /\ set_deposit_sub_account sample_hash sample_on_curve dead_client
         sample_program_id 1 5 sample_authority []
       = (Err (TransportError 1), [] ++ [GetLatestBlockhash]).
Proof.
  destruct (derive sample_hash sample_on_curve sample_program_id
              BASE_SEED_BORING_VAULT_STATE 1) as [[pda bump]|e] eqn:Hpda.
  - exists pda, bump. split; [lia|]. split; [lia|]. split; [reflexivity|].
    split; [reflexivity|].
    apply (blockhash_failure_surfaces sample_hash sample_on_curve dead_client
             sample_program_id 1 5 sample_authority [] pda bump (TransportError 1)
             ltac:(lia) ltac:(lia) Hpda eq_refl).
  - vm_compute in Hpda. discriminate Hpda.
Defined.

Lemma connectors_send_once_witness :
  exists ins,
    latest_blockhash_resp sample_client [] = Ok (repeat xbb 32)
    /\ set_deposit_sub_account_instruction sample_hash sample_on_curve
         sample_program_id 1 5 sample_authority = Ok ins
    /\ snd (set_deposit_sub_account sample_hash sample_on_curve sample_client
              sample_program_id 1 5 sample_authority [])
       = [] ++ [GetLatestBlockhash;
                SendTransaction
                  {| message := {| payer := Keypair_pubkey sample_authority;
                                   instructions := [ins];
                                   address_lookup_table_accounts := [];
                                   recent_blockhash := repeat xbb 32 |};
                     signers := [sample_authority] |}].
Proof.
  destruct (set_deposit_sub_account_instruction sample_hash sample_on_curve
              sample_program_id 1 5 sample_authority) as [ins|e] eqn:Hins.
  - exists ins. split; [reflexivity|]. split; [reflexivity|].
    destruct (connectors_send_once sample_hash sample_on_curve sample_client
                sample_program_id 1 5 sample_authority [] (repeat xbb 32) ins eq_refl)
      as [Hdeposit _].
    now rewrite (Hdeposit Hins).
  - vm_compute in Hins. discriminate Hins.
Defined.

Lemma instruction_data_unambiguous_witness :
  exists deposit withdraw,
    set_deposit_sub_account_data 1 5 = Ok deposit
    /\ set_withdraw_sub_account_data 1 10 = Ok withdraw
    /\ deposit <> withdraw.
Proof.
  destruct (set_deposit_sub_account_data 1 5) as [deposit|e] eqn:Hd;
    [|vm_compute in Hd; discriminate Hd].
  destruct (set_withdraw_sub_account_data 1 10) as [withdraw|e] eqn:Hw;
    [|vm_compute in Hw; discriminate Hw].
  exists deposit, withdraw. split; [reflexivity|]. split; [reflexivity|].
  apply (instruction_data_unambiguous 1 5 1 10 deposit withdraw Hd Hw).
Defined.

Lemma args_struct_parse_then_build_witness :
  (9 <= List.length [x02; x01; x00; x00; x00; x00; x00; x00; x05; xff])%nat
  /\ exists vault_id new_sub_account,
       parse args_struct [x02; x01; x00; x00; x00; x00; x00; x00; x05; xff]
         = Ok [("vault_id", VInt vault_id); ("new_sub_account", VInt new_sub_account)]%string
       /\ 0 <= vault_id < 2 ^ 64
       /\ 0 <= new_sub_account < 256
       /\ encoded_args vault_id new_sub_account
          = Ok (firstn 9 [x02; x01; x00; x00; x00; x00; x00; x00; x05; xff]).
Proof.
  assert (H : (9 <= List.length [x02; x01; x00; x00; x00; x00; x00; x00; x05; xff])%nat)
    by (cbn [List.length]; lia).
  split; [exact H|].
  exact (args_struct_parse_then_build _ H).
Defined.


Lemma account_field_offsets_witness :
  (320 <= List.length (skipn 8 sample_account))%nat
  /\ exists record,
       parse boring_vault_flat_struct (skipn 8 sample_account) = Ok record
       /\ dict_get record "config_vault_id"
          = Ok (VInt (le_int (firstn 8 (skipn 8 sample_account)))).
Proof.
  assert (H : (320 <= List.length (skipn 8 sample_account))%nat)
    by (apply Nat.leb_le; vm_compute; reflexivity).
  split; [exact H|].
  destruct (account_field_offsets (skipn 8 sample_account) H)
    as (record & Hparse & Hid & _).
  exists record. split; [exact Hparse|exact Hid].
Defined.

Lemma account_vault_id_round_trip_witness :
  List.length (repeat xff 8) = 8%nat
  /\ int_to_bytes 258 8 = Ok [x02; x01; x00; x00; x00; x00; x00; x00]
  /\ account_vault_id (repeat xff 8 ++ [x02; x01; x00; x00; x00; x00; x00; x00] ++ [xaa])
     = 258.
Proof.
  split; [reflexivity|]. split; [reflexivity|].
  apply (account_vault_id_round_trip (repeat xff 8) [xaa]
           [x02; x01; x00; x00; x00; x00; x00; x00] 258); reflexivity.
Defined.

Lemma account_vault_id_is_config_vault_id_witness :
  (328 <= List.length sample_account)%nat
  /\ exists record,
       parse boring_vault_flat_struct (skipn 8 sample_account) = Ok record
       /\ dict_get record "config_vault_id" = Ok (VInt (account_vault_id sample_account)).
Proof.
  assert (H : (328 <= List.length sample_account)%nat)
    by (apply Nat.leb_le; vm_compute; reflexivity).
  split; [exact H|].
  exact (account_vault_id_is_config_vault_id sample_account H).
Defined.

Lemma get_vault_info_result_witness :
  sample_post [] "program"%string = Result sample_entries
  /\ exists vaults,
       get_vault_info (Some ["k"%char]) sample_post "program"%string [] = Ok vaults
       /\ (List.length vaults <= List.length sample_entries)%nat.
Proof.
  split; [reflexivity|].
  destruct (get_vault_info_result "k"%char [] sample_post "program"%string []
              sample_entries eq_refl) as (vaults & Hget & _ & Hlen & _).
  exists vaults. split; [exact Hget|exact Hlen].
Defined.

Lemma select_vaults_window_witness :
  0 <= 1 /\ 0 <= 2
  /\ select_vaults sample_vaults None 2 1
     = firstn (Z.to_nat 2) (skipn (Z.to_nat 1) sample_vaults).
Proof.
  split; [lia|]. split; [lia|].
  apply (select_vaults_window sample_vaults None 2 1); lia.
Defined.

Lemma select_vaults_sound_witness :
  let v := {| Vault_pubkey := "C"; Vault_vault_id := 1 |}%string in
  In v (select_vaults sample_vaults (Some 1) 5 (-1))
  /\ In v sample_vaults
  /\ forall id, Some 1 = Some id -> id <> 0 -> Vault_vault_id v = id.
Proof.
  intros v.
  assert (H : In v (select_vaults sample_vaults (Some 1) 5 (-1)))
    by (vm_compute; left; reflexivity).
  split; [exact H|].
  exact (select_vaults_sound sample_vaults (Some 1) 5 (-1) v H).
Defined.

Lemma test_set_deposit_sub_account_verdict_witness :
  exists sig log' vault_state_pda bump,
    set_deposit_sub_account sample_hash sample_on_curve sample_client
      sample_program_id 1 5 sample_authority [] = (Ok sig, log')
    /\ derive sample_hash sample_on_curve sample_program_id
         BASE_SEED_BORING_VAULT_STATE 1 = Ok (vault_state_pda, bump)
    /\ snd (test_set_deposit_sub_account sample_hash sample_on_curve sample_client
              sample_program_id sample_authority 1 [])
       = log' ++ [ConfirmTransaction sig; GetAccountInfo vault_state_pda].
Proof.
  destruct (set_deposit_sub_account sample_hash sample_on_curve sample_client
              sample_program_id 1 5 sample_authority []) as [[sig|e] log'] eqn:Hrun;
    [|vm_compute in Hrun; discriminate Hrun].
  destruct (derive sample_hash sample_on_curve sample_program_id
              BASE_SEED_BORING_VAULT_STATE 1) as [[pda bump]|e] eqn:Hpda;
    [|vm_compute in Hpda; discriminate Hpda].
  exists sig, log', pda, bump. split; [reflexivity|]. split; [reflexivity|].
  now rewrite (test_set_deposit_sub_account_verdict sample_hash sample_on_curve
                 sample_client sample_program_id sample_authority 1 [] log' sig true
                 pda bump _ Hrun eq_refl Hpda eq_refl).
Defined.

Lemma test_set_withdraw_sub_account_verdict_witness :
  exists sig log' vault_state_pda bump,
    set_withdraw_sub_account sample_hash sample_on_curve sample_client
      sample_program_id 1 10 sample_authority [] = (Ok sig, log')
    /\ derive sample_hash sample_on_curve sample_program_id
         BASE_SEED_BORING_VAULT_STATE 1 = Ok (vault_state_pda, bump)
    /\ snd (test_set_withdraw_sub_account sample_hash sample_on_curve sample_client
              sample_program_id sample_authority 1 [])
       = log' ++ [ConfirmTransaction sig; GetAccountInfo vault_state_pda].
Proof.
  destruct (set_withdraw_sub_account sample_hash sample_on_curve sample_client
              sample_program_id 1 10 sample_authority []) as [[sig|e] log'] eqn:Hrun;
    [|vm_compute in Hrun; discriminate Hrun].
  destruct (derive sample_hash sample_on_curve sample_program_id
              BASE_SEED_BORING_VAULT_STATE 1) as [[pda bump]|e] eqn:Hpda;
    [|vm_compute in Hpda; discriminate Hpda].
  exists sig, log', pda, bump. split; [reflexivity|]. split; [reflexivity|].
  now rewrite (test_set_withdraw_sub_account_verdict sample_hash sample_on_curve
                 sample_client sample_program_id sample_authority 1 [] log' sig true
                 pda bump _ Hrun eq_refl Hpda eq_refl).
Defined.
